(** * ebitenui text input: edit operations, input state machine, caret viewport

    A shallow embedding of [widget.TextInput] (textinput.go) and the
    properties its specification states about it.  Go strings are byte
    sequences, [int] is a 64-bit two's complement integer, and a slice or
    string index outside its bounds is a run-time panic; all three are kept
    explicit here. *)

From Stdlib Require Import ZArith List Bool Lia Permutation.
From Stdlib Require Import Strings.Byte.
Import ListNotations.
Local Open Scope Z_scope.

(** ** Results of Go code: a value, a run-time panic, or an exhausted loop budget *)

Inductive result (A : Type) : Type :=
| Ok (a : A)
| Panic
| OutOfFuel.
Arguments Ok {A} a.
Arguments Panic {A}.
Arguments OutOfFuel {A}.

Definition bind {A B : Type} (m : result A) (k : A -> result B) : result B :=
  match m with
  | Ok a => k a
  | Panic => Panic
  | OutOfFuel => OutOfFuel
  end.

Notation "x <- m ;; k" := (bind m (fun x => k))
  (at level 61, m at next level, right associativity).

(** ** Go's [int] on 64-bit targets *)

Module GoInt.

Definition min_int : Z := - 2 ^ 63.
Definition max_int : Z := 2 ^ 63 - 1.

(** Two's complement wrap-around of an exact result. *)
Definition wrap (z : Z) : Z := (z + 2 ^ 63) mod 2 ^ 64 - 2 ^ 63.

Definition add (a b : Z) : Z := wrap (a + b).
Definition sub (a b : Z) : Z := wrap (a - b).

(** Go's [/] on ints truncates toward zero. *)
Definition quo (a b : Z) : Z := wrap (Z.quot a b).

Definition in_range (z : Z) : Prop := min_int <= z <= max_int.

(** [float64(z)] for an int [z]: the nearest double, ties to even.  Every
    double of magnitude at least [2^53] is an integer, so the value of the
    conversion is given as an integer. *)
Definition float64 (z : Z) : Z :=
  let m := Z.abs z in
  if m <? 2 ^ 53 then z
  else
    let e := Z.log2 m - 52 in
    let q := m / 2 ^ e in
    let r := m mod 2 ^ e in
    let half := 2 ^ (e - 1) in
    let q' := if r <? half then q
              else if half <? r then q + 1
              else if Z.even q then q else q + 1 in
    Z.sgn z * (q' * 2 ^ e).

(** [math.Abs] on the doubles above. *)
Definition Abs (f : Z) : Z := Z.abs f.

End GoInt.

Infix "+!" := GoInt.add (at level 50, left associativity).
Infix "-!" := GoInt.sub (at level 50, left associativity).

(** ** Go strings, runes and the conversions between them *)

Definition rune : Type := Z.
Definition gostring : Type := list byte.

Definition b2z (b : byte) : Z := Z.of_N (Byte.to_N b).

Definition z2b (z : Z) : byte :=
  match Byte.of_N (Z.to_N z) with
  | Some b => b
  | None => x00
  end.

(** [len(s)] *)
Definition len {A : Type} (s : list A) : Z := Z.of_nat (length s).

Module UTF8.

Definition RuneError : rune := 0xFFFD.
Definition MaxRune : rune := 0x10FFFF.

Definition surrogate (r : rune) : bool := (0xD800 <=? r) && (r <=? 0xDFFF).

Definition ValidRune (r : rune) : bool :=
  (0 <=? r) && (r <=? MaxRune) && negb (surrogate r).

(** The bytes [string(r)] and [utf8.EncodeRune] produce for a valid rune. *)
Definition encodeValid (r : rune) : gostring :=
  if r <? 0x80 then [z2b r]
  else if r <? 0x800 then
    [z2b (0xC0 + r / 64); z2b (0x80 + r mod 64)]
  else if r <? 0x10000 then
    [z2b (0xE0 + r / 4096); z2b (0x80 + (r / 64) mod 64); z2b (0x80 + r mod 64)]
  else
    [z2b (0xF0 + r / 262144); z2b (0x80 + (r / 4096) mod 64);
     z2b (0x80 + (r / 64) mod 64); z2b (0x80 + r mod 64)].

(** [string(r)]: runes outside the Unicode range and surrogates become
    U+FFFD. *)
Definition EncodeRune (r : rune) : gostring :=
  if ValidRune r then encodeValid r else encodeValid RuneError.

(** The rune a rune becomes through [string(r)] and back. *)
Definition sanitize (r : rune) : rune := if ValidRune r then r else RuneError.

Definition cont (b : Z) : bool := (0x80 <=? b) && (b <=? 0xBF).

(** [utf8.DecodeRuneInString]: the first rune of [s] and its width in
    bytes; a byte that does not start a well-formed sequence decodes to
    U+FFFD with width 1. *)
Definition DecodeRune (s : gostring) : rune * nat :=
  match s with
  | [] => (RuneError, 0%nat)
  | c0 :: s1 =>
    let b0 := b2z c0 in
    if b0 <? 0x80 then (b0, 1%nat)
    else if b0 <? 0xC2 then (RuneError, 1%nat)
    else if b0 <? 0xE0 then
      match s1 with
      | c1 :: _ =>
        let b1 := b2z c1 in
        if cont b1 then ((b0 - 0xC0) * 64 + (b1 - 0x80), 2%nat)
        else (RuneError, 1%nat)
      | _ => (RuneError, 1%nat)
      end
    else if b0 <? 0xF0 then
      match s1 with
      | c1 :: c2 :: _ =>
        let b1 := b2z c1 in
        let b2 := b2z c2 in
        let lo := if b0 =? 0xE0 then 0xA0 else 0x80 in
        let hi := if b0 =? 0xED then 0x9F else 0xBF in
        if (lo <=? b1) && (b1 <=? hi) && cont b2 then
          ((b0 - 0xE0) * 4096 + (b1 - 0x80) * 64 + (b2 - 0x80), 3%nat)
        else (RuneError, 1%nat)
      | _ => (RuneError, 1%nat)
      end
    else if b0 <? 0xF5 then
      match s1 with
      | c1 :: c2 :: c3 :: _ =>
        let b1 := b2z c1 in
        let b2 := b2z c2 in
        let b3 := b2z c3 in
        let lo := if b0 =? 0xF0 then 0x90 else 0x80 in
        let hi := if b0 =? 0xF4 then 0x8F else 0xBF in
        if (lo <=? b1) && (b1 <=? hi) && cont b2 && cont b3 then
          ((b0 - 0xF0) * 262144 + (b1 - 0x80) * 4096
           + (b2 - 0x80) * 64 + (b3 - 0x80), 4%nat)
        else (RuneError, 1%nat)
      | _ => (RuneError, 1%nat)
      end
    else (RuneError, 1%nat)
  end.

(** [[]rune(s)], decoding one rune after the other; [n] bounds the number
    of runes and [length s] is always enough. *)
Fixpoint runes_upto (n : nat) (s : gostring) : list rune :=
  match n, s with
  | S n', _ :: _ =>
    let '(r, sz) := DecodeRune s in
    r :: runes_upto n' (skipn sz s)
  | _, _ => []
  end.

Definition runes (s : gostring) : list rune := runes_upto (length s) s.

(** [string(rs)] for a rune slice. *)
Definition string_of (rs : list rune) : gostring := flat_map EncodeRune rs.

(** [utf8.RuneCountInString] *)
Definition RuneCount (s : gostring) : Z := len (runes s).

End UTF8.

(** ** Slice expressions, with Go's bounds checks *)

(** [s[lo:]] on a string or slice: panics unless [0 <= lo <= len(s)]. *)
Definition slice_from {A : Type} (s : list A) (lo : Z) : result (list A) :=
  if (0 <=? lo) && (lo <=? len s) then Ok (skipn (Z.to_nat lo) s) else Panic.

(** [s[:hi]] on a string: panics unless [0 <= hi <= len(s)]. *)
Definition slice_to {A : Type} (s : list A) (hi : Z) : result (list A) :=
  if (0 <=? hi) && (hi <=? len s) then Ok (firstn (Z.to_nat hi) s) else Panic.

(** On a slice Go checks the high index of [a[:hi]] against the capacity
    [cap(a)], not against the length, and the elements between the length
    and [hi] are those of the underlying array.  The slice a conversion
    [[]rune(s)] yields is backed by an array the runtime chooses
    ([runtime.stringtoslicerune]): a zeroed buffer of 32 runes on the stack
    when the slice does not outlive the expression and the text has at most
    32 code points, as at every conversion of textinput.go, and a heap block
    of a size class of the allocator, with a zeroed tail, otherwise.  The
    size classes are no part of the language; a [Runtime] is any choice of
    capacities with the 32-rune buffer, each capacity an [int] as [cap]
    returns it. *)
Record Runtime : Type := {
  runeCap : nat -> nat;
  runeCap_ge : forall n, (n <= runeCap n)%nat;
  runeCap_stack : forall n, (n <= 32)%nat -> runeCap n = 32%nat;
  runeCap_int : forall n, Z.of_nat n <= GoInt.max_int ->
                          Z.of_nat (runeCap n) <= GoInt.max_int
}.

(** One runtime: the 32-rune buffer, and no slack in a larger block.  On a
    text of at most 32 code points every runtime behaves as this one. *)
Definition tightRuntime : Runtime :=
  {| runeCap := fun n => Nat.max n 32;
     runeCap_ge := fun n => Nat.le_max_l n 32;
     runeCap_stack := fun n H => Nat.max_r n 32 H;
     runeCap_int := fun n H =>
       Nat.max_case n 32 (fun m => Z.of_nat m <= GoInt.max_int) H
         (proj1 (Z.leb_le (Z.of_nat 32) GoInt.max_int) eq_refl) |}.

(** [[]rune(s)[:hi]], where [rs] are the runes of [s]: the first [hi] runes
    when there are that many; all of them followed by zero runes up to [hi]
    when [hi] is beyond the length and within the capacity; a panic when
    [hi] is negative or beyond the capacity. *)
Definition runes_to (rt : Runtime) (rs : list rune) (hi : Z) : result (list rune) :=
  if (0 <=? hi) && (hi <=? len rs) then Ok (firstn (Z.to_nat hi) rs)
  else if (0 <=? hi) && (hi <=? Z.of_nat (runeCap rt (length rs)))
  then Ok (rs ++ repeat 0 (Z.to_nat hi - length rs))
  else Panic.

(** ** Geometry: the standard [image] package and the toolkit's [Insets] *)

Module img.

Record Point : Type := { X : Z; Y : Z }.
Record Rectangle : Type := { Min : Point; Max : Point }.

Definition Point_Add (p q : Point) : Point :=
  {| X := X p +! X q; Y := Y p +! Y q |}.

Definition Point_Sub (p q : Point) : Point :=
  {| X := X p -! X q; Y := Y p -! Y q |}.

(** [p.In(r)] *)
Definition In (p : Point) (r : Rectangle) : bool :=
  (X (Min r) <=? X p) && (X p <? X (Max r))
  && (Y (Min r) <=? Y p) && (Y p <? Y (Max r)).

(** [r.Add(p)] *)
Definition Add (r : Rectangle) (p : Point) : Rectangle :=
  {| Min := Point_Add (Min r) p; Max := Point_Add (Max r) p |}.

Definition Dx (r : Rectangle) : Z := X (Max r) -! X (Min r).
Definition Dy (r : Rectangle) : Z := Y (Max r) -! Y (Min r).

End img.

Record Insets : Type := { Top : Z; Left : Z; Right : Z; Bottom : Z }.

(** Modelled from the spec: [Insets.Apply] is declared outside the two source
    files; the spec calls its result the padded content rectangle, that is
    the rectangle moved inwards by the padding on each side. *)
Definition Insets_Apply (i : Insets) (rect : img.Rectangle) : img.Rectangle :=
  {| img.Min := img.Point_Add (img.Min rect) {| img.X := Left i; img.Y := Top i |};
     img.Max := img.Point_Sub (img.Max rect) {| img.X := Right i; img.Y := Bottom i |} |}.

(** ** The collaborators of the widget *)

(** Modelled from the spec: a font face is used through [fontAdvance] only,
    which rounds the advance that [font.BoundString] reports to whole pixels;
    the face and the fixed-point helper live outside the source files, so a
    face is given by the pixel advance it assigns to a string. *)
Record Face : Type := { advance : gostring -> Z }.

Definition fontAdvance (s : gostring) (f : Face) : Z := advance f s.

Record Widget : Type := { Rect : img.Rectangle; Disabled : bool }.

(** Modelled from the spec: the caret sub-widget exposes its width, a
    location and a blink reset that makes it visible at once. *)
Record Caret : Type := { Width : Z; caretRect : img.Rectangle; blinkOn : bool }.

Definition Caret_ResetBlinking (c : Caret) : Caret :=
  {| Width := Width c; caretRect := caretRect c; blinkOn := true |}.

Definition Caret_SetLocation (rect : img.Rectangle) (c : Caret) : Caret :=
  {| Width := Width c; caretRect := rect; blinkOn := blinkOn c |}.

(** The text sub-widget: only what [drawTextAndCaret] assigns. *)
Record Text : Type := { Label : gostring; textRect : img.Rectangle }.

Module ebiten.

(** The keys of [ebiten.Key] the text input looks at. *)
Inductive Key : Type :=
| KeyLeft | KeyRight | KeyHome | KeyEnd | KeyBackspace | KeyDelete.

Definition Key_eqb (a b : Key) : bool :=
  match a, b with
  | KeyLeft, KeyLeft | KeyRight, KeyRight | KeyHome, KeyHome
  | KeyEnd, KeyEnd | KeyBackspace, KeyBackspace | KeyDelete, KeyDelete => true
  | _, _ => false
  end.

End ebiten.

Module time.

(** [time.Duration] and instants, in nanoseconds. *)
Definition Duration : Type := Z.
Definition Millisecond : Duration := 1000000.

End time.

Module input.

(** Modelled from the spec: the input sampler provides, once per frame,
    the newly typed characters, a key-held predicate, whether the primary
    button was just pressed on the widget's input layer, and the pointer
    position.  [now] is the wall-clock instant of the frame. *)
Record Sample : Type := {
  now : Z;
  InputChars : list rune;
  KeyPressed : ebiten.Key -> bool;
  MouseButtonJustPressedLayer : bool;
  CursorPosition : Z * Z
}.

End input.

(** ** The text input *)

Inductive textInputControlCommand : Type :=
| textInputGoLeft
| textInputGoRight
| textInputGoStart
| textInputGoEnd
| textInputBackspace
| textInputDelete.

Definition textInputControlCommand_eqb (a b : textInputControlCommand) : bool :=
  match a, b with
  | textInputGoLeft, textInputGoLeft | textInputGoRight, textInputGoRight
  | textInputGoStart, textInputGoStart | textInputGoEnd, textInputGoEnd
  | textInputBackspace, textInputBackspace | textInputDelete, textInputDelete => true
  | _, _ => false
  end.

(** The entries of the Go map, in the order of the source text.  A [range]
    over the map visits them in an order the language does not fix. *)
Definition textInputKeyToCommand : list (ebiten.Key * textInputControlCommand) :=
  [ (ebiten.KeyLeft, textInputGoLeft);
    (ebiten.KeyRight, textInputGoRight);
    (ebiten.KeyHome, textInputGoStart);
    (ebiten.KeyEnd, textInputGoEnd);
    (ebiten.KeyBackspace, textInputBackspace);
    (ebiten.KeyDelete, textInputDelete) ].

(** The state closures, one constructor per closure with the variables it
    captures.  [timer] is [None] for a nil timer; a started timer is kept as
    the instant [time.AfterFunc] was given, and its [expired] flag reads true
    from that instant on. *)
Inductive textInputState : Type :=
| idleState (newKeyOrCommand : bool)
| charInputState (c : rune)
| commandState (cmd : textInputControlCommand) (key : ebiten.Key)
               (delay : time.Duration) (timer : option Z).

Definition TextInputValidationFunc : Type := gostring -> bool.

Record TextInput : Type := {
  InputText : gostring;
  padding : Insets;
  face : Face;
  repeatDelay : time.Duration;
  repeatInterval : time.Duration;
  validationFunc : option TextInputValidationFunc;
  widget : Widget;
  caret : Caret;
  text : Text;
  cursorPosition : Z;
  state : textInputState;
  scrollOffset : Z
}.

Definition set_InputText (s : gostring) (t : TextInput) : TextInput :=
  {| InputText := s; padding := padding t; face := face t;
     repeatDelay := repeatDelay t; repeatInterval := repeatInterval t;
     validationFunc := validationFunc t; widget := widget t; caret := caret t;
     text := text t; cursorPosition := cursorPosition t; state := state t;
     scrollOffset := scrollOffset t |}.

Definition set_cursorPosition (c : Z) (t : TextInput) : TextInput :=
  {| InputText := InputText t; padding := padding t; face := face t;
     repeatDelay := repeatDelay t; repeatInterval := repeatInterval t;
     validationFunc := validationFunc t; widget := widget t; caret := caret t;
     text := text t; cursorPosition := c; state := state t;
     scrollOffset := scrollOffset t |}.

Definition set_scrollOffset (o : Z) (t : TextInput) : TextInput :=
  {| InputText := InputText t; padding := padding t; face := face t;
     repeatDelay := repeatDelay t; repeatInterval := repeatInterval t;
     validationFunc := validationFunc t; widget := widget t; caret := caret t;
     text := text t; cursorPosition := cursorPosition t; state := state t;
     scrollOffset := o |}.

Definition set_state (st : textInputState) (t : TextInput) : TextInput :=
  {| InputText := InputText t; padding := padding t; face := face t;
     repeatDelay := repeatDelay t; repeatInterval := repeatInterval t;
     validationFunc := validationFunc t; widget := widget t; caret := caret t;
     text := text t; cursorPosition := cursorPosition t; state := st;
     scrollOffset := scrollOffset t |}.

Definition set_caret (c : Caret) (t : TextInput) : TextInput :=
  {| InputText := InputText t; padding := padding t; face := face t;
     repeatDelay := repeatDelay t; repeatInterval := repeatInterval t;
     validationFunc := validationFunc t; widget := widget t; caret := c;
     text := text t; cursorPosition := cursorPosition t; state := state t;
     scrollOffset := scrollOffset t |}.

Definition set_text (x : Text) (t : TextInput) : TextInput :=
  {| InputText := InputText t; padding := padding t; face := face t;
     repeatDelay := repeatDelay t; repeatInterval := repeatInterval t;
     validationFunc := validationFunc t; widget := widget t; caret := caret t;
     text := x; cursorPosition := cursorPosition t; state := state t;
     scrollOffset := scrollOffset t |}.

(** [t.caret.ResetBlinking()] *)
Definition ResetBlinking (t : TextInput) : TextInput :=
  set_caret (Caret_ResetBlinking (caret t)) t.

(** ** The fill layout (filllayout.go) *)

Module FillLayout.

(** A widget as the layout sees it, through [PreferredSize] and
    [SetLocation]. *)
Record PreferredSizeLocateableWidget : Type := {
  preferred : Z * Z;
  location : img.Rectangle
}.

Definition SetLocation (rect : img.Rectangle) (w : PreferredSizeLocateableWidget)
  : PreferredSizeLocateableWidget :=
  {| preferred := preferred w; location := rect |}.

Record fillLayout : Type := { padding : Insets; dirty : bool }.

Inductive FillLayoutOpt : Type :=
| Padding (i : Insets).

Definition applyOpt (f : fillLayout) (o : FillLayoutOpt) : fillLayout :=
  match o with
  | Padding i => {| padding := i; dirty := dirty f |}
  end.

Definition NewFillLayout (opts : list FillLayoutOpt) : fillLayout :=
  fold_left applyOpt opts
    {| padding := {| Top := 0; Left := 0; Right := 0; Bottom := 0 |};
       dirty := false |}.

(** [PreferredSize]; the methods [Dx] and [Dy] of [Insets] are declared
    outside the source files and are taken as arguments. *)
Definition PreferredSize (Dx Dy : Insets -> Z) (f : fillLayout)
    (widgets : list PreferredSizeLocateableWidget) : Z * Z :=
  let px := Dx (padding f) in
  let py := Dy (padding f) in
  match widgets with
  | [] => (px, py)
  | w0 :: _ => let '(w, h) := preferred w0 in (w +! px, h +! py)
  end.

(** [Layout]: the layout after the call, with the deferred reset of
    [dirty] applied, and the widgets after it. *)
Definition Layout (f : fillLayout) (widgets : list PreferredSizeLocateableWidget)
    (rect : img.Rectangle)
  : fillLayout * list PreferredSizeLocateableWidget :=
  if negb (dirty f) then (f, widgets)
  else
    let f' := {| padding := padding f; dirty := false |} in
    match widgets with
    | [] => (f', [])
    | w0 :: rest => (f', SetLocation (Insets_Apply (padding f) rect) w0 :: rest)
    end.

Definition MarkDirty (f : fillLayout) : fillLayout :=
  {| padding := padding f; dirty := true |}.

End FillLayout.

(** ** The text input, over a runtime *)

(** The widget's functions and what is proved of them hold for every
    runtime [rt]. *)

Section Runtime.

Variable rt : Runtime.

(** *** Edit operations *)

Definition insertChar (s : gostring) (r : rune) (pos : Z) : result gostring :=
  pre <- runes_to rt (UTF8.runes s) pos ;;
  suf <- slice_from s pos ;;
  Ok (UTF8.string_of pre ++ UTF8.EncodeRune r ++ UTF8.string_of (UTF8.runes suf)).

Definition removeChar (s : gostring) (pos : Z) : result gostring :=
  pre <- runes_to rt (UTF8.runes s) pos ;;
  suf <- slice_from (UTF8.runes s) (pos +! 1) ;;
  Ok (UTF8.string_of pre ++ UTF8.string_of suf).

Definition doInsert (c : rune) (t : TextInput) : result TextInput :=
  s <- insertChar (InputText t) c (cursorPosition t) ;;
  match validationFunc t with
  | Some valid =>
    if negb (valid s) then Ok t
    else Ok (set_cursorPosition (cursorPosition t +! 1) (set_InputText s t))
  | None => Ok (set_cursorPosition (cursorPosition t +! 1) (set_InputText s t))
  end.

Definition doGoLeft (t : TextInput) : result TextInput :=
  let t := if cursorPosition t >? 0
           then set_cursorPosition (cursorPosition t -! 1) t else t in
  Ok (ResetBlinking t).

Definition doGoRight (t : TextInput) : result TextInput :=
  let t := if cursorPosition t <? len (InputText t)
           then set_cursorPosition (cursorPosition t +! 1) t else t in
  Ok (ResetBlinking t).

Definition doGoStart (t : TextInput) : result TextInput :=
  Ok (ResetBlinking (set_cursorPosition 0 t)).

Definition doGoEnd (t : TextInput) : result TextInput :=
  Ok (ResetBlinking (set_cursorPosition (len (InputText t)) t)).

Definition doBackspace (t : TextInput) : result TextInput :=
  t <- (if cursorPosition t >? 0 then
          s <- removeChar (InputText t) (cursorPosition t -! 1) ;;
          Ok (set_cursorPosition (cursorPosition t -! 1) (set_InputText s t))
        else Ok t) ;;
  Ok (ResetBlinking t).

Definition doDelete (t : TextInput) : result TextInput :=
  t <- (if cursorPosition t <? len (InputText t) then
          s <- removeChar (InputText t) (cursorPosition t) ;;
          Ok (set_InputText s t)
        else Ok t) ;;
  Ok (ResetBlinking t).

(** [t.commandToFunc[cmd]], as filled in by [NewTextInput]. *)
Definition commandToFunc (cmd : textInputControlCommand)
  : TextInput -> result TextInput :=
  match cmd with
  | textInputGoLeft => doGoLeft
  | textInputGoRight => doGoRight
  | textInputGoStart => doGoStart
  | textInputGoEnd => doGoEnd
  | textInputBackspace => doBackspace
  | textInputDelete => doDelete
  end.

(** *** From a pixel offset to an index *)

(** How the search loop of [fontStringIndex] is left: by its [return p] or by
    one of its two [break]s. *)
Inductive loopExit : Type :=
| Returned (p : Z)
| Broke (p : Z).

Fixpoint fontStringIndex_loop (fuel : nat) (s : gostring) (f : Face) (x : Z)
    (start end_ : Z) : result loopExit :=
  match fuel with
  | O => OutOfFuel
  | S fuel' =>
    let p := start +! GoInt.quo (end_ -! start) 2 in
    sub <- runes_to rt (UTF8.runes s) p ;;
    let a := fontAdvance (UTF8.string_of sub) f in
    if x -! a =? 0 then Ok (Returned p)
    else if x -! a >? 0 then
      if p =? start then Ok (Broke p)
      else fontStringIndex_loop fuel' s f x p end_
    else
      if end_ =? p then Ok (Broke p)
      else fontStringIndex_loop fuel' s f x start p
  end.

(** The loop has no bound in the source; the budget below is the number of
    iterations [len(s) + 1] that the interval [start, end] can take. *)
Definition fontStringIndex_with (fuel : nat) (s : gostring) (f : Face) (x : Z)
  : result Z :=
  e <- fontStringIndex_loop fuel s f x 0 (len s) ;;
  match e with
  | Returned p => Ok p
  | Broke p =>
    if len s >? 0 then
      sub1 <- runes_to rt (UTF8.runes s) p ;;
      let a1 := fontAdvance (UTF8.string_of sub1) f in
      sub2 <- runes_to rt (UTF8.runes s) (p +! 1) ;;
      let a2 := fontAdvance (UTF8.string_of sub2) f in
      if GoInt.Abs (GoInt.float64 (x -! a2)) <? GoInt.Abs (GoInt.float64 (x -! a1))
      then Ok (p +! 1)
      else Ok p
    else Ok p
  end.

Definition fontStringIndex (s : gostring) (f : Face) (x : Z) : result Z :=
  fontStringIndex_with (S (length s)) s f x.

(** The advance the search measures at index [p], that of
    [string([]rune(s)[:p])], where that slice exists. *)
Definition advanceAt (s : gostring) (f : Face) (p : Z) : Z :=
  match runes_to rt (UTF8.runes s) p with
  | Ok sub => fontAdvance (UTF8.string_of sub) f
  | _ => 0
  end.

Definition doGoXY (x y : Z) (t : TextInput) : result TextInput :=
  let p := {| img.X := x; img.Y := y |} in
  if img.In p (Rect (widget t)) then
    let tr := Insets_Apply (padding t) (Rect (widget t)) in
    let x := if x <? img.X (img.Min tr) then img.X (img.Min tr) else x in
    let x := if x >? img.X (img.Max tr) then img.X (img.Max tr) else x in
    i <- fontStringIndex (InputText t) (face t)
           (x -! scrollOffset t -! img.X (img.Min tr)) ;;
    Ok (ResetBlinking (set_cursorPosition i t))
  else Ok t.

(** *** The input state machine *)

(** What a frame did to the text, in the order of the calls. *)
Inductive Event : Type :=
| Executed (cmd : textInputControlCommand)
| Inserted (c : rune)
| Clicked (x y : Z).

(** The [range] loop of [idleState] over the key map: the first entry, in the
    order [iter] of this visit, whose key is held. *)
Fixpoint firstPressed (iter : list (ebiten.Key * textInputControlCommand))
    (pressed : ebiten.Key -> bool)
  : option (ebiten.Key * textInputControlCommand) :=
  match iter with
  | [] => None
  | (key, cmd) :: rest =>
    if pressed key then Some (key, cmd) else firstPressed rest pressed
  end.

(** One call [t.state()]: the next state, the rerun flag, the widget after
    the call and the edits it made. *)
Definition runState (env : input.Sample)
    (iter : list (ebiten.Key * textInputControlCommand))
    (st : textInputState) (t : TextInput)
  : result (TextInput * textInputState * bool * list Event) :=
  match st with
  | idleState newKeyOrCommand =>
    let delay := if newKeyOrCommand then repeatDelay t else repeatInterval t in
    match input.InputChars env with
    | c :: _ => Ok (t, charInputState c, true, [])
    | [] =>
      match firstPressed iter (input.KeyPressed env) with
      | Some (key, cmd) => Ok (t, commandState cmd key delay None, true, [])
      | None =>
        if input.MouseButtonJustPressedLayer env then
          let '(x, y) := input.CursorPosition env in
          t' <- doGoXY x y t ;;
          Ok (t', idleState true, false, [Clicked x y])
        else Ok (t, idleState true, false, [])
      end
    end
  | charInputState c =>
    if negb (Disabled (widget t)) then
      t' <- doInsert c t ;;
      Ok (ResetBlinking t', idleState true, false, [Inserted c])
    else Ok (ResetBlinking t, idleState true, false, [])
  | commandState cmd key delay timer =>
    if negb (input.KeyPressed env key) then Ok (t, idleState true, true, [])
    else
      match timer with
      | Some deadline =>
        if deadline <=? input.now env then Ok (t, idleState false, true, [])
        else Ok (t, commandState cmd key delay timer, false, [])
      | None =>
        t' <- commandToFunc cmd t ;;
        Ok (t', commandState cmd key delay (Some (input.now env + delay)),
            false, [Executed cmd])
      end
  end.

(** The loop of [Render] that reruns the state until it asks for no rerun. *)
Fixpoint runStates (fuel : nat) (env : input.Sample)
    (iter : list (ebiten.Key * textInputControlCommand)) (t : TextInput)
  : result (TextInput * list Event) :=
  match fuel with
  | O => OutOfFuel
  | S fuel' =>
    r <- runState env iter (state t) t ;;
    let '(t', st', rerun, ev) := r in
    let t' := set_state st' t' in
    if (rerun : bool) then
      r' <- runStates fuel' env iter t' ;;
      Ok (fst r', ev ++ snd r')
    else Ok (t', ev)
  end.

(** The scroll correction and the placement of text and caret in
    [drawTextAndCaret]; the drawing into the two buffers changes no field of
    the widget and is left out. *)
Definition drawTextAndCaret (t : TextInput) : result TextInput :=
  let rect := Rect (widget t) in
  pre <- slice_to (InputText t) (cursorPosition t) ;;
  let cx := fontAdvance pre (face t) in
  let tr := img.Add rect {| img.X := Left (padding t); img.Y := Top (padding t) |} in
  let dx := img.X (img.Min tr) +! scrollOffset t +! cx +! Width (caret t)
            +! Right (padding t) -! img.X (img.Max rect) in
  let t := if dx >? 0 then set_scrollOffset (scrollOffset t -! dx) t else t in
  let dx := img.X (img.Min tr) +! scrollOffset t +! cx -! Left (padding t)
            -! img.X (img.Min rect) in
  let t := if dx <? 0 then set_scrollOffset (scrollOffset t -! dx) t else t in
  let tr := img.Add tr {| img.X := scrollOffset t; img.Y := 0 |} in
  let t := set_text {| Label := InputText t; textRect := tr |} t in
  let tr := img.Add tr {| img.X := cx; img.Y := 0 |} in
  Ok (set_caret (Caret_SetLocation tr (caret t)) t).

(** The cursor clamp at the start of [Render]. *)
Definition clampCursor (t : TextInput) : TextInput :=
  if cursorPosition t >? len (InputText t)
  then set_cursorPosition (len (InputText t)) t else t.

(** [Render]: clamp, run the states, draw.  [fuel] bounds the rerun loop,
    which the source leaves unbounded. *)
Definition Render_with (fuel : nat) (env : input.Sample)
    (iter : list (ebiten.Key * textInputControlCommand)) (t : TextInput)
  : result (TextInput * list Event) :=
  r <- runStates fuel env iter (clampCursor t) ;;
  t' <- drawTextAndCaret (fst r) ;;
  Ok (t', snd r).

Definition Render (env : input.Sample)
    (iter : list (ebiten.Key * textInputControlCommand)) (t : TextInput)
  : result (TextInput * list Event) :=
  Render_with 3 env iter t.

(** *** Construction *)

Inductive TextInputOpt : Type :=
| WidgetOpts (o : Widget -> Widget)
| CaretOpts (o : Caret -> Caret)
| Padding (i : Insets)
| FaceOpt (f : Face)
| RepeatInterval (i : time.Duration)
| Validation (f : TextInputValidationFunc).

Definition applyOpt (t : TextInput) (o : TextInputOpt) : TextInput :=
  {| InputText := InputText t;
     padding := match o with Padding i => i | _ => padding t end;
     face := match o with FaceOpt f => f | _ => face t end;
     repeatDelay := repeatDelay t;
     repeatInterval := match o with RepeatInterval i => i | _ => repeatInterval t end;
     validationFunc := match o with Validation f => Some f | _ => validationFunc t end;
     widget := match o with WidgetOpts w => w (widget t) | _ => widget t end;
     caret := match o with CaretOpts c => c (caret t) | _ => caret t end;
     text := text t; cursorPosition := cursorPosition t; state := state t;
     scrollOffset := scrollOffset t |}.

Definition zeroRect : img.Rectangle :=
  {| img.Min := {| img.X := 0; img.Y := 0 |}; img.Max := {| img.X := 0; img.Y := 0 |} |}.

(** [NewTextInput]: the defaults, then the options in order.  The zero face
    stands for the nil interface an unconfigured widget holds. *)
Definition NewTextInput (opts : list TextInputOpt) : TextInput :=
  fold_left applyOpt opts
    {| InputText := [];
       padding := {| Top := 0; Left := 0; Right := 0; Bottom := 0 |};
       face := {| advance := fun _ => 0 |};
       repeatDelay := 300 * time.Millisecond;
       repeatInterval := 35 * time.Millisecond;
       validationFunc := None;
       widget := {| Rect := zeroRect; Disabled := false |};
       caret := {| Width := 0; caretRect := zeroRect; blinkOn := true |};
       text := {| Label := []; textRect := zeroRect |};
       cursorPosition := 0;
       state := idleState true;
       scrollOffset := 0 |}.


(** ** What the specification says, for comparison *)

(** The insert of the specification: the first [cursorIndex] code points of
    [content], then [char], then the remaining code points. *)
Definition insert_spec (content : gostring) (cursorIndex : Z) (char : rune)
  : gostring :=
  UTF8.string_of (firstn (Z.to_nat cursorIndex) (UTF8.runes content)
                  ++ [char]
                  ++ skipn (Z.to_nat cursorIndex) (UTF8.runes content)).

(** A byte that is a code point on its own. *)
Definition ascii (c : byte) : Prop := b2z c < 0x80.

(** The cursor range of the specification, in code points. *)
Definition cursor_in_code_points (t : TextInput) : Prop :=
  0 <= cursorPosition t <= UTF8.RuneCount (InputText t).

(** The range the clamps of the code keep, in bytes. *)
Definition cursor_in_bytes (t : TextInput) : Prop :=
  0 <= cursorPosition t <= len (InputText t).

(** ** Concrete inputs *)

(** A face that gives every code point the advance [w rune] and no kerning. *)
Definition glyphFace (w : rune -> Z) : Face :=
  {| advance := fun s => fold_right Z.add 0 (map w (UTF8.runes s)) |}.

Definition face10 : Face := glyphFace (fun _ => 10).

(** U+00E9, two bytes in UTF-8. *)
Definition e_acute : gostring := [xc3; xa9].

(** ["a"] followed by U+00E9: three bytes, two code points. *)
Definition text_a_e_acute : gostring := [x61; xc3; xa9].

(** U+00E9 twenty times: forty bytes, twenty code points. *)
Definition e_acute_x20 : gostring := concat (repeat e_acute 20).

Definition text_ab : gostring := [x61; x62].
Definition text_hello : gostring := [x68; x65; x6c; x6c; x6f].

Definition noKeys : ebiten.Key -> bool := fun _ => false.

Definition held (k : ebiten.Key) : ebiten.Key -> bool := ebiten.Key_eqb k.

Definition held2 (k1 k2 : ebiten.Key) : ebiten.Key -> bool :=
  fun k => ebiten.Key_eqb k1 k || ebiten.Key_eqb k2 k.

Definition frame (t : Z) (chars : list rune) (keys : ebiten.Key -> bool)
  : input.Sample :=
  {| input.now := t; input.InputChars := chars; input.KeyPressed := keys;
     input.MouseButtonJustPressedLayer := false; input.CursorPosition := (0, 0) |}.

Definition click (t : Z) (x y : Z) : input.Sample :=
  {| input.now := t; input.InputChars := []; input.KeyPressed := noKeys;
     input.MouseButtonJustPressedLayer := true; input.CursorPosition := (x, y) |}.

Definition rect (x0 y0 x1 y1 : Z) : img.Rectangle :=
  {| img.Min := {| img.X := x0; img.Y := y0 |};
     img.Max := {| img.X := x1; img.Y := y1 |} |}.

(** A widget holding [s] with the cursor at [c], measured by [face10]. *)
Definition textInputWith (s : gostring) (c : Z) : TextInput :=
  set_cursorPosition c (set_InputText s (NewTextInput [FaceOpt face10])).


(** The cursor, and the edits, a call ended with. *)
Definition cursorOf (r : result TextInput) : result Z :=
  t <- r ;; Ok (cursorPosition t).

Definition textOf (r : result TextInput) : result gostring :=
  t <- r ;; Ok (InputText t).

Definition eventsOf (r : result (TextInput * list Event)) : result (list Event) :=
  p <- r ;; Ok (snd p).

Definition widgetOf (r : result (TextInput * list Event)) : result TextInput :=
  p <- r ;; Ok (fst p).

(** The scenario of the click test: ["ab"], both glyphs 10 pixels wide, in a
    widget of 100 by 20 pixels at the origin without padding, so that the
    content rectangle starts at x = 0. *)
Definition face_ab : Face :=
  glyphFace (fun r => if r =? 0x61 then 10 else if r =? 0x62 then 10 else 0).

Definition clickScene : TextInput :=
  set_InputText text_ab
    (NewTextInput [FaceOpt face_ab;
                   WidgetOpts (fun w => {| Rect := rect 0 0 100 20;
                                           Disabled := Disabled w |})]).

(** The same widget holding ["a"] and U+00E9, every glyph 10 pixels wide. *)
Definition clickSceneMultibyte : TextInput :=
  set_InputText text_a_e_acute
    (NewTextInput [FaceOpt face10;
                   WidgetOpts (fun w => {| Rect := rect 0 0 100 20;
                                           Disabled := Disabled w |})]).

(** Two orders in which a [range] may visit the key map. *)
Definition iterSource : list (ebiten.Key * textInputControlCommand) :=
  textInputKeyToCommand.

Definition iterReversed : list (ebiten.Key * textInputControlCommand) :=
  rev textInputKeyToCommand.

(** The number of command executions among the edits of a frame. *)
Definition isExecuted (e : Event) : bool :=
  match e with
  | Executed _ => true
  | _ => false
  end.

Definition executions (ev : list Event) : nat := length (filter isExecuted ev).

(** The advance width of the boundary before code point [p] of [s]. *)
Definition prefixAdvance (s : gostring) (f : Face) (p : Z) : Z :=
  fontAdvance (UTF8.string_of (firstn (Z.to_nat p) (UTF8.runes s))) f.

(** The states whose call always ends the frame: a typed character, and a
    command whose key is held and whose timer has not been started. *)
Definition ends_frame (env : input.Sample) (st : textInputState) : Prop :=
  match st with
  | charInputState _ => True
  | commandState _ key _ None => input.KeyPressed env key = true
  | _ => False
  end.

(** Frames one after the other, each with its sample. *)
Fixpoint RenderAll (envs : list input.Sample)
    (iter : list (ebiten.Key * textInputControlCommand)) (t : TextInput)
  : result TextInput :=
  match envs with
  | [] => Ok t
  | env :: rest => r <- Render env iter t ;; RenderAll rest iter (fst r)
  end.

Definition ms (n : Z) : Z := n * time.Millisecond.

(** ["hello"] with the cursor at its end, and the same after one backspace. *)
Definition hello_at_end : TextInput := textInputWith text_hello 5.

Definition hello_backspaced : TextInput :=
  ResetBlinking (set_cursorPosition 4
                   (set_InputText [x68; x65; x6c; x6c] hello_at_end)).

Definition holdBackspace (t : Z) : input.Sample :=
  frame t [] (held ebiten.KeyBackspace).

(** A widget in the middle of repeating Left, its timer set for instant 10. *)
Definition repeatingLeft : TextInput :=
  set_state (commandState textInputGoLeft ebiten.KeyLeft (ms 300) (Some 10))
            (textInputWith text_ab 1).

(** ** Geometry of the caret *)

(** A pixel quantity far enough from the ends of the int range for the sums
    of [drawTextAndCaret] not to wrap. *)
Definition pixels (z : Z) : Prop := - 2 ^ 56 <= z <= 2 ^ 56.

(** Caret X within the un-scrolled text. *)
Definition caretX (t : TextInput) : Z :=
  fontAdvance (firstn (Z.to_nat (cursorPosition t)) (InputText t)) (face t).

Definition scene_in_pixels (t : TextInput) : Prop :=
  pixels (img.X (img.Min (Rect (widget t))))
  /\ pixels (img.X (img.Max (Rect (widget t))))
  /\ pixels (Left (padding t)) /\ pixels (Right (padding t))
  /\ pixels (scrollOffset t) /\ pixels (caretX t) /\ pixels (Width (caret t)).

(** The padded content rectangle of the widget. *)
Definition contentRect (t : TextInput) : img.Rectangle :=
  Insets_Apply (padding t) (Rect (widget t)).

(** The scenario of the scroll test: a widget 100 pixels wide with 5 pixels
    of padding on each side, twenty characters of 10 pixels each and the
    cursor behind them, so that the caret is at 200 pixels; the caret is 2
    pixels wide and nothing is scrolled yet. *)
Definition scrollScene : TextInput :=
  set_cursorPosition 20
    (set_InputText (repeat x61 20)
       (NewTextInput
          [FaceOpt face10;
           Padding {| Top := 5; Left := 5; Right := 5; Bottom := 5 |};
           WidgetOpts (fun w => {| Rect := rect 0 0 100 30; Disabled := Disabled w |});
           CaretOpts (fun c => {| Width := 2; caretRect := caretRect c;
                                  blinkOn := blinkOn c |})])).

(** Advance widths do not decrease from one boundary of [s] to the next. *)
Definition nondecreasing (s : gostring) (f : Face) : Prop :=
  forall i j, 0 <= i <= j -> j <= UTF8.RuneCount s ->
              prefixAdvance s f i <= prefixAdvance s f j.

(** Text in which every code point is a single byte. *)
Definition single_byte (s : gostring) : Prop := UTF8.RuneCount s = len s.

(** Offsets and advances small enough for their differences to be exact,
    as ints and as doubles. *)
Definition small (z : Z) : Prop := - 2 ^ 51 <= z <= 2 ^ 51.

Definition advances_small (s : gostring) (f : Face) : Prop :=
  forall i, 0 <= i <= UTF8.RuneCount s -> small (prefixAdvance s f i).

(** The distance of boundary [i] from the offset [x]. *)
Definition distance (s : gostring) (f : Face) (x i : Z) : Z :=
  Z.abs (x - prefixAdvance s f i).

(** Where the search of [fontStringIndex] stops on single-byte text: on a
    boundary at the offset, or at the last boundary left of the offset, or
    at boundary 0 when the offset is left of the whole text. *)
Definition stops_at (s : gostring) (f : Face) (x : Z) (e : loopExit) : Prop :=
  match e with
  | Returned p => 0 <= p <= len s /\ prefixAdvance s f p = x
  | Broke p =>
    (len s = 0 /\ p = 0)
    \/ (0 <= p < len s
        /\ ((prefixAdvance s f p < x
             /\ (p + 1 < len s -> x < prefixAdvance s f (p + 1)))
            \/ (p = 0 /\ x < prefixAdvance s f 0)))
  end.

(** Text that is well-formed UTF-8: decoding and encoding gives it back. *)
Definition valid_utf8 (s : gostring) : Prop := UTF8.string_of (UTF8.runes s) = s.

(** The pointer X after the two clamps of [doGoXY] to the padded content
    rectangle. *)
Definition clampToContent (t : TextInput) (x : Z) : Z :=
  let tr := Insets_Apply (padding t) (Rect (widget t)) in
  let x := if x <? img.X (img.Min tr) then img.X (img.Min tr) else x in
  if x >? img.X (img.Max tr) then img.X (img.Max tr) else x.

(** The scroll offset [drawTextAndCaret] leaves, written without
    wrap-around: the right clamp, then the left clamp.  [x0] and [x1] are the
    left and right edge of the widget, [pl] and [pr] its horizontal padding,
    [cw] the caret width, [cx] the caret X in the text and [so] the offset
    before. *)
Definition scrollAfter (x0 x1 pl pr cw cx so : Z) : Z :=
  let dx := x0 + pl + so + cx + cw + pr - x1 in
  let so := if dx >? 0 then so - dx else so in
  let dx := x0 + pl + so + cx - pl - x0 in
  if dx <? 0 then so - dx else so.

(** As [scene_in_pixels], with more room for the scroll offset: what a
    frame leaves is again a scene a frame can start from. *)
Definition scene_in_pixels_scrolled (t : TextInput) : Prop :=
  pixels (img.X (img.Min (Rect (widget t))))
  /\ pixels (img.X (img.Max (Rect (widget t))))
  /\ pixels (Left (padding t)) /\ pixels (Right (padding t))
  /\ - 2 ^ 59 <= scrollOffset t <= 2 ^ 59
  /\ pixels (caretX t) /\ pixels (Width (caret t)).

(** * Facts about the model *)

Ltac bool_hyps :=
  repeat match goal with
         | H : (_ && _) = true |- _ => apply andb_true_iff in H; destruct H
         | H : (_ && _) = false |- _ => apply andb_false_iff in H
         | H : negb _ = true |- _ => apply negb_true_iff in H
         | H : negb _ = false |- _ => apply negb_false_iff in H
         | H : (_ <? _) = true |- _ => apply Z.ltb_lt in H
         | H : (_ <? _) = false |- _ => apply Z.ltb_ge in H
         | H : (_ <=? _) = true |- _ => apply Z.leb_le in H
         | H : (_ <=? _) = false |- _ => apply Z.leb_gt in H
         | H : (_ >? _) = true |- _ => rewrite Z.gtb_ltb in H
         | H : (_ >? _) = false |- _ => rewrite Z.gtb_ltb in H
         | H : (_ =? _) = true |- _ => apply Z.eqb_eq in H
         | H : (_ =? _) = false |- _ => apply Z.eqb_neq in H
         | H : _ \/ _ |- _ => destruct H
         | H : context [if ?b then _ else _] |- _ =>
           lazymatch b with
           | true => fail
           | false => fail
           | _ => destruct b eqn:?
           end
         end.

Ltac split_ifs :=
  repeat match goal with
         | |- context [if ?b then _ else _] =>
           lazymatch b with
           | true => fail
           | false => fail
           | _ => destruct b eqn:?
           end
         end.

Ltac split_bytes :=
  repeat match goal with
         | |- context [if ?b then _ else _] => destruct b eqn:?
         | |- context [match ?l with [] => _ | _ :: _ => _ end] => destruct l
         end.

(** ** Bytes *)

Lemma b2z_range (b : byte) : 0 <= b2z b < 256.
Proof.
  unfold b2z. pose proof (Byte.to_N_bounded b). lia.
Qed.

Lemma b2z_z2b (z : Z) : 0 <= z < 256 -> b2z (z2b z) = z.
Proof.
  intros Hz. unfold b2z, z2b.
  destruct (Byte.of_N (Z.to_N z)) as [b|] eqn:E.
  - apply Byte.to_of_N in E. rewrite E. lia.
  - apply Byte.of_N_None_iff in E. lia.
Qed.

Lemma z2b_b2z (b : byte) : z2b (b2z b) = b.
Proof.
  unfold b2z, z2b. rewrite N2Z.id, Byte.of_to_N. reflexivity.
Qed.

Ltac byte_ranges :=
  repeat match goal with
         | c : byte |- _ =>
           lazymatch goal with
           | H : 0 <= b2z c < 256 |- _ => fail
           | _ => pose proof (b2z_range c)
           end
         end.

Lemma Forall_firstn_skipn {A : Type} (P : A -> Prop) (n : nat) (l : list A) :
  Forall P l -> Forall P (firstn n l) /\ Forall P (skipn n l).
Proof.
  intros H. rewrite <- (firstn_skipn n l) in H. apply Forall_app in H. exact H.
Qed.

(** ** The string and rune conversions *)

Section UTF8Facts.
Import UTF8.

Lemma DecodeRune_width (c : byte) (s : gostring) :
  (1 <= snd (DecodeRune (c :: s)) <= length (c :: s))%nat.
Proof.
  unfold DecodeRune. split_bytes; cbn [snd length]; lia.
Qed.

Lemma runes_upto_enough (n : nat) : forall s : gostring,
  (length s <= n)%nat -> runes_upto n s = runes s.
Proof.
  unfold runes.
  induction n as [n IH] using lt_wf_ind. intros s Hn.
  destruct s as [|c s]; [destruct n; reflexivity|].
  destruct n as [|n]; [cbn in Hn; lia|].
  cbn [length] in Hn. cbn [length runes_upto].
  pose proof (DecodeRune_width c s) as Hw.
  destruct (DecodeRune (c :: s)) as [r sz]. cbn [snd] in Hw.
  f_equal.
  assert (Hl : (length (skipn sz (c :: s)) <= length s)%nat).
  { rewrite length_skipn. cbn [length]. lia. }
  rewrite (IH n) by lia.
  rewrite (IH (length s)); [reflexivity| lia | lia].
Qed.

Lemma runes_nil : runes [] = [].
Proof. reflexivity. Qed.

Lemma runes_cons (c : byte) (s : gostring) :
  runes (c :: s) =
  fst (DecodeRune (c :: s)) :: runes (skipn (snd (DecodeRune (c :: s))) (c :: s)).
Proof.
  unfold runes at 1. cbn [length runes_upto].
  pose proof (DecodeRune_width c s) as Hw.
  destruct (DecodeRune (c :: s)) as [r sz]. cbn [fst snd] in *.
  f_equal. apply runes_upto_enough.
  rewrite length_skipn. cbn [length]. lia.
Qed.

(** Decoding what [string(r)] wrote gives the rune back, at the width
    written. *)
Lemma DecodeRune_encodeValid (r : rune) (rest : gostring) :
  ValidRune r = true ->
  DecodeRune (encodeValid r ++ rest) = (r, length (encodeValid r)).
Proof.
  unfold ValidRune, surrogate, MaxRune, encodeValid. intros Hv. bool_hyps.
  all: destruct (r <? 128) eqn:E1;
    [|destruct (r <? 2048) eqn:E2; [|destruct (r <? 65536) eqn:E3]];
    bool_hyps; cbn [app DecodeRune length];
    rewrite !b2z_z2b by (Z.div_mod_to_equations; lia);
    unfold cont; split_ifs; bool_hyps;
    solve [ apply f_equal2; [Z.div_mod_to_equations; lia | reflexivity]
          | exfalso; Z.div_mod_to_equations; lia ].
Qed.

Lemma sanitize_valid (r : rune) : ValidRune (sanitize r) = true.
Proof.
  unfold sanitize. destruct (ValidRune r) eqn:E; [exact E | reflexivity].
Qed.

Lemma EncodeRune_sanitize (r : rune) : EncodeRune r = encodeValid (sanitize r).
Proof.
  unfold EncodeRune, sanitize. destruct (ValidRune r); reflexivity.
Qed.

Lemma DecodeRune_EncodeRune (r : rune) (rest : gostring) :
  DecodeRune (EncodeRune r ++ rest) = (sanitize r, length (EncodeRune r)).
Proof.
  rewrite EncodeRune_sanitize. apply DecodeRune_encodeValid, sanitize_valid.
Qed.

Lemma EncodeRune_length (r : rune) : (1 <= length (EncodeRune r) <= 4)%nat.
Proof.
  rewrite EncodeRune_sanitize. unfold encodeValid.
  split_ifs; cbn [length]; lia.
Qed.

Lemma runes_app_EncodeRune (r : rune) (rest : gostring) :
  runes (EncodeRune r ++ rest) = sanitize r :: runes rest.
Proof.
  pose proof (EncodeRune_length r) as Hl.
  destruct (EncodeRune r ++ rest) as [|c s] eqn:E.
  { apply (f_equal (@length _)) in E. rewrite length_app in E. cbn in E. lia. }
  rewrite runes_cons, <- E, DecodeRune_EncodeRune. cbn [fst snd].
  rewrite skipn_app, skipn_all, Nat.sub_diag. reflexivity.
Qed.

Lemma runes_string_of_app (rs : list rune) (rest : gostring) :
  runes (string_of rs ++ rest) = map sanitize rs ++ runes rest.
Proof.
  induction rs as [|r rs IH]; [reflexivity|].
  unfold string_of in *. cbn [flat_map map app].
  rewrite <- app_assoc, runes_app_EncodeRune, IH. reflexivity.
Qed.

Lemma runes_string_of (rs : list rune) :
  runes (string_of rs) = map sanitize rs.
Proof.
  rewrite <- (app_nil_r (string_of rs)), runes_string_of_app, runes_nil.
  apply app_nil_r.
Qed.

Lemma string_of_app (a b : list rune) :
  string_of (a ++ b) = string_of a ++ string_of b.
Proof. unfold string_of. apply flat_map_app. Qed.

(** [[]rune(s)] holds valid runes only. *)
Lemma DecodeRune_valid (s : gostring) : ValidRune (fst (DecodeRune s)) = true.
Proof.
  destruct s as [|c0 s]; [reflexivity|].
  unfold DecodeRune, cont.
  split_bytes; cbn [fst]; try reflexivity; byte_ranges; bool_hyps;
    unfold ValidRune, surrogate, MaxRune;
    rewrite !andb_true_iff, negb_true_iff, andb_false_iff, !Z.leb_le, !Z.leb_gt;
    lia.
Qed.

Lemma runes_valid (s : gostring) : Forall (fun r => ValidRune r = true) (runes s).
Proof.
  remember (length s) as n eqn:Hn. revert s Hn.
  induction n as [n IH] using lt_wf_ind. intros s Hn.
  destruct s as [|c s]; [constructor|].
  rewrite runes_cons. constructor; [apply DecodeRune_valid|].
  pose proof (DecodeRune_width c s) as Hw.
  eapply IH; [|reflexivity].
  rewrite length_skipn. subst n. cbn [length] in *. lia.
Qed.

Lemma map_sanitize_valid (rs : list rune) :
  Forall (fun r => ValidRune r = true) rs -> map sanitize rs = rs.
Proof.
  induction 1 as [|r rs Hr _ IH]; [reflexivity|].
  cbn [map]. rewrite IH. unfold sanitize. rewrite Hr. reflexivity.
Qed.

Lemma map_sanitize_firstn (n : nat) (s : gostring) :
  map sanitize (firstn n (runes s)) = firstn n (runes s).
Proof.
  apply map_sanitize_valid, (Forall_firstn_skipn _ n), runes_valid.
Qed.

Lemma map_sanitize_skipn (n : nat) (s : gostring) :
  map sanitize (skipn n (runes s)) = skipn n (runes s).
Proof.
  apply map_sanitize_valid, (Forall_firstn_skipn _ n), runes_valid.
Qed.

(** A continuation byte does not start a sequence. *)
Lemma DecodeRune_cont (c : byte) (s : gostring) :
  cont (b2z c) = true -> DecodeRune (c :: s) = (RuneError, 1%nat).
Proof.
  unfold cont, DecodeRune. intros H. bool_hyps.
  destruct (b2z c <? 128) eqn:E1; bool_hyps; [lia|].
  destruct (b2z c <? 194) eqn:E2; bool_hyps; [reflexivity|lia].
Qed.

Lemma runes_cont (c : byte) (s : gostring) :
  cont (b2z c) = true -> runes (c :: s) = RuneError :: runes s.
Proof.
  intros H. rewrite runes_cons, DecodeRune_cont by exact H. reflexivity.
Qed.

(** The bytes a multi-byte sequence spans after its first are continuation
    bytes. *)
Lemma DecodeRune_shape (c : byte) (s : gostring) :
  match snd (DecodeRune (c :: s)) with
  | 1%nat => True
  | 2%nat => exists c1 s', s = c1 :: s' /\ cont (b2z c1) = true
  | 3%nat => exists c1 c2 s', s = c1 :: c2 :: s'
                              /\ cont (b2z c1) = true /\ cont (b2z c2) = true
  | 4%nat => exists c1 c2 c3 s', s = c1 :: c2 :: c3 :: s'
                                 /\ cont (b2z c1) = true /\ cont (b2z c2) = true
                                 /\ cont (b2z c3) = true
  | _ => False
  end.
Proof.
  unfold DecodeRune.
  split_bytes; cbn [snd]; try exact I;
    repeat eexists; unfold cont in *; bool_hyps;
    rewrite ?andb_true_iff, ?Z.leb_le; lia.
Qed.

(** Dropping one byte loses at most one rune. *)
Lemma runes_drop_byte (c : byte) (s : gostring) :
  (length (runes (c :: s)) <= 1 + length (runes s))%nat.
Proof.
  rewrite runes_cons. pose proof (DecodeRune_shape c s) as Hs.
  destruct (snd (DecodeRune (c :: s))) as [|[|[|[|[|k]]]]]; try contradiction.
  - cbn [skipn length]. lia.
  - destruct Hs as (c1 & s' & -> & H1).
    rewrite (runes_cont c1) by exact H1. cbn [skipn length]. lia.
  - destruct Hs as (c1 & c2 & s' & -> & H1 & H2).
    rewrite (runes_cont c1), (runes_cont c2) by assumption. cbn [skipn length]. lia.
  - destruct Hs as (c1 & c2 & c3 & s' & -> & H1 & H2 & H3).
    rewrite (runes_cont c1), (runes_cont c2), (runes_cont c3) by assumption.
    cbn [skipn length]. lia.
Qed.

Lemma runes_skipn_length (k : nat) : forall s : gostring,
  (length (runes s) <= k + length (runes (skipn k s)))%nat.
Proof.
  induction k as [|k IH]; intros s; [cbn [skipn]; lia|].
  destruct s as [|c s]; [cbn [skipn]; lia|].
  cbn [skipn]. pose proof (runes_drop_byte c s). specialize (IH s). lia.
Qed.

(** Every rune takes at least one byte. *)
Lemma runes_length_le (s : gostring) : (length (runes s) <= length s)%nat.
Proof.
  pose proof (runes_skipn_length (length s) s) as H.
  rewrite skipn_all, runes_nil in H. cbn [length] in H. lia.
Qed.

Lemma string_of_length_ge (rs : list rune) :
  (length rs <= length (string_of rs))%nat.
Proof.
  induction rs as [|r rs IH]; [cbn; lia|].
  unfold string_of in *. cbn [flat_map]. rewrite length_app.
  pose proof (EncodeRune_length r). cbn [length]. lia.
Qed.

Lemma RuneCount_le_len (s : gostring) : RuneCount s <= len s.
Proof.
  unfold RuneCount, len. pose proof (runes_length_le s). lia.
Qed.

End UTF8Facts.
(** ** Integers *)

Lemma wrap_small (z : Z) : GoInt.in_range z -> GoInt.wrap z = z.
Proof.
  unfold GoInt.in_range, GoInt.wrap, GoInt.min_int, GoInt.max_int. intros H.
  rewrite Z.mod_small by lia. lia.
Qed.

Lemma add_small (a b : Z) : GoInt.in_range (a + b) -> a +! b = a + b.
Proof. apply wrap_small. Qed.

Lemma sub_small (a b : Z) : GoInt.in_range (a - b) -> a -! b = a - b.
Proof. apply wrap_small. Qed.

Lemma wrap_range (z : Z) : GoInt.in_range (GoInt.wrap z).
Proof.
  unfold GoInt.in_range, GoInt.wrap, GoInt.min_int, GoInt.max_int.
  pose proof (Z.mod_pos_bound (z + 2 ^ 63) (2 ^ 64)). lia.
Qed.

Lemma float64_exact (z : Z) : Z.abs z < 2 ^ 53 -> GoInt.float64 z = z.
Proof.
  intros H. unfold GoInt.float64.
  destruct (Z.abs z <? 2 ^ 53) eqn:E; [reflexivity|].
  apply Z.ltb_ge in E. lia.
Qed.

(** ** Slices *)

Lemma Ok_inj {A : Type} (a b : A) : Ok a = Ok b -> a = b.
Proof. intros H. inversion H. reflexivity. Qed.

Lemma slice_to_ok {A : Type} (s : list A) (hi : Z) :
  0 <= hi <= len s -> slice_to s hi = Ok (firstn (Z.to_nat hi) s).
Proof.
  intros H. unfold slice_to.
  destruct (0 <=? hi) eqn:E1; destruct (hi <=? len s) eqn:E2; try reflexivity; lia.
Qed.

Lemma slice_from_ok {A : Type} (s : list A) (lo : Z) :
  0 <= lo <= len s -> slice_from s lo = Ok (skipn (Z.to_nat lo) s).
Proof.
  intros H. unfold slice_from.
  destruct (0 <=? lo) eqn:E1; destruct (lo <=? len s) eqn:E2; try reflexivity; lia.
Qed.

Lemma slice_to_inv {A : Type} (s r : list A) (hi : Z) :
  slice_to s hi = Ok r -> 0 <= hi <= len s /\ r = firstn (Z.to_nat hi) s.
Proof.
  unfold slice_to.
  destruct (0 <=? hi) eqn:E1; destruct (hi <=? len s) eqn:E2; cbn;
    intros H; inversion H; split; [lia|reflexivity].
Qed.

Lemma slice_from_inv {A : Type} (s r : list A) (lo : Z) :
  slice_from s lo = Ok r -> 0 <= lo <= len s /\ r = skipn (Z.to_nat lo) s.
Proof.
  unfold slice_from.
  destruct (0 <=? lo) eqn:E1; destruct (lo <=? len s) eqn:E2; cbn;
    intros H; inversion H; split; [lia|reflexivity].
Qed.

Lemma slice_to_panic {A : Type} (s : list A) (hi : Z) :
  len s < hi -> slice_to s hi = Panic.
Proof.
  intros H. unfold slice_to.
  destruct (hi <=? len s) eqn:E; [lia|]. rewrite andb_false_r. reflexivity.
Qed.

(** ** Rune slices *)

Lemma runes_to_ok (rs : list rune) (hi : Z) :
  0 <= hi <= len rs -> runes_to rt rs hi = Ok (firstn (Z.to_nat hi) rs).
Proof.
  intros H. unfold runes_to.
  destruct (0 <=? hi) eqn:E1; destruct (hi <=? len rs) eqn:E2; try reflexivity; lia.
Qed.

(** What a rune slice expression gives when it gives something: [hi] runes,
    the runes of the text as far as they go and zero runes behind them. *)
Lemma runes_to_inv (rs pre : list rune) (hi : Z) :
  runes_to rt rs hi = Ok pre ->
  0 <= hi /\ length pre = Z.to_nat hi
  /\ (hi <= len rs -> pre = firstn (Z.to_nat hi) rs)
  /\ (len rs < hi -> pre = rs ++ repeat 0 (Z.to_nat hi - length rs)).
Proof.
  unfold runes_to, len.
  destruct (0 <=? hi) eqn:E1; [|rewrite !andb_false_l; discriminate].
  apply Z.leb_le in E1. rewrite !andb_true_l.
  destruct (hi <=? Z.of_nat (length rs)) eqn:E2.
  - apply Z.leb_le in E2. intros H. apply Ok_inj in H. subst pre.
    repeat split; try lia.
    rewrite length_firstn. lia.
  - apply Z.leb_gt in E2.
    destruct (hi <=? Z.of_nat (runeCap rt (length rs))); [|discriminate].
    intros H. apply Ok_inj in H. subst pre.
    repeat split; try lia.
    rewrite length_app, repeat_length. lia.
Qed.

(** An index a rune slice expression accepts is an [int]. *)
Lemma runes_to_int (rs pre : list rune) (hi : Z) :
  len rs <= GoInt.max_int ->
  runes_to rt rs hi = Ok pre -> 0 <= hi <= GoInt.max_int.
Proof.
  unfold runes_to, len. intros Hl.
  destruct (0 <=? hi) eqn:E1; [|rewrite !andb_false_l; discriminate].
  apply Z.leb_le in E1. rewrite !andb_true_l.
  destruct (hi <=? Z.of_nat (length rs)) eqn:E2; [apply Z.leb_le in E2; lia|].
  destruct (hi <=? Z.of_nat (runeCap rt (length rs))) eqn:E3; [|discriminate].
  apply Z.leb_le in E3. pose proof (runeCap_int rt (length rs) Hl). lia.
Qed.

Lemma slice_from_panic {A : Type} (s : list A) (lo : Z) :
  lo < 0 \/ len s < lo -> slice_from s lo = Panic.
Proof.
  intros H. unfold slice_from.
  destruct (0 <=? lo) eqn:E1; [|reflexivity].
  destruct (lo <=? len s) eqn:E2; [|reflexivity].
  apply Z.leb_le in E1. apply Z.leb_le in E2. lia.
Qed.

Lemma runes_to_fuel (rs : list rune) (hi : Z) : runes_to rt rs hi <> OutOfFuel.
Proof.
  unfold runes_to. destruct (_ && _); [discriminate|].
  destruct (_ && _); discriminate.
Qed.

Lemma runes_to_negative (rs : list rune) (hi : Z) :
  hi < 0 -> runes_to rt rs hi = Panic.
Proof.
  intros H. unfold runes_to.
  destruct (0 <=? hi) eqn:E; [apply Z.leb_le in E; lia|]. reflexivity.
Qed.

(** ** Insert and remove *)

Section EditFacts.
Import UTF8.

Lemma insertChar_ok (s : gostring) (r : rune) (pos : Z) :
  0 <= pos <= RuneCount s ->
  insertChar s r pos =
  Ok (string_of (firstn (Z.to_nat pos) (runes s)) ++ EncodeRune r
      ++ string_of (runes (skipn (Z.to_nat pos) s))).
Proof.
  intros H. unfold insertChar. pose proof (RuneCount_le_len s).
  rewrite runes_to_ok by exact H. rewrite slice_from_ok by lia. reflexivity.
Qed.

(** A candidate is [pos] runes, the character, and what the bytes from
    [pos] on decode to; [pos] is within the bytes of the text. *)
Lemma insertChar_inv (s s' : gostring) (r : rune) (pos : Z) :
  insertChar s r pos = Ok s' ->
  exists pre, runes_to rt (runes s) pos = Ok pre
    /\ length pre = Z.to_nat pos /\ 0 <= pos <= len s
    /\ s' = string_of pre ++ EncodeRune r
            ++ string_of (runes (skipn (Z.to_nat pos) s)).
Proof.
  unfold insertChar. destruct (runes_to rt (runes s) pos) as [pre| |] eqn:E;
    cbn [bind]; try discriminate.
  destruct (slice_from s pos) as [suf| |] eqn:E2; cbn [bind]; try discriminate.
  intros H. apply Ok_inj in H. subst s'.
  apply slice_from_inv in E2. destruct E2 as [Hp ->].
  exists pre. pose proof (runes_to_inv _ _ _ E) as Hi.
  destruct Hi as (_ & Hl & _). repeat split; try reflexivity; try lia.
Qed.

(** The candidate has at least one code point more than the text. *)
Lemma insertChar_RuneCount (s s' : gostring) (r : rune) (pos : Z) :
  insertChar s r pos = Ok s' -> RuneCount s + 1 <= RuneCount s'.
Proof.
  intros H. destruct (insertChar_inv _ _ _ _ H) as (pre & _ & Hl & Hp & ->).
  unfold RuneCount, len in *.
  rewrite runes_string_of_app, runes_app_EncodeRune, runes_string_of.
  rewrite length_app, !length_map. cbn [length]. rewrite length_map.
  pose proof (runes_skipn_length (Z.to_nat pos) s). lia.
Qed.

(** Re-encoding what was decoded never gives fewer bytes. *)
Lemma DecodeRune_reencode (c : byte) (s : gostring) :
  (snd (DecodeRune (c :: s)) <= length (EncodeRune (fst (DecodeRune (c :: s)))))%nat.
Proof.
  pose proof (DecodeRune_valid (c :: s)) as Hv.
  unfold EncodeRune. rewrite Hv. clear Hv.
  unfold DecodeRune, cont, encodeValid.
  split_bytes; cbn [fst snd length] in *; try lia; byte_ranges; bool_hyps;
    unfold RuneError in *; lia.
Qed.

Lemma string_of_runes_length (s : gostring) :
  (length s <= length (string_of (runes s)))%nat.
Proof.
  remember (length s) as n eqn:Hn. revert s Hn.
  induction n as [n IH] using lt_wf_ind. intros s Hn.
  destruct s as [|c s]; [subst; cbn; lia|].
  rewrite runes_cons. unfold string_of in *. cbn [flat_map].
  rewrite length_app.
  pose proof (DecodeRune_reencode c s) as H1.
  pose proof (DecodeRune_width c s) as Hw.
  set (sz := snd (DecodeRune (c :: s))) in *.
  specialize (IH (length (skipn sz (c :: s)))).
  rewrite length_skipn in IH. cbn [length] in *.
  specialize (IH ltac:(lia) (skipn sz (c :: s))).
  rewrite length_skipn in IH. cbn [length] in IH.
  specialize (IH eq_refl). lia.
Qed.

(** The candidate has at least one byte more than the text. *)
Lemma insertChar_len (s s' : gostring) (r : rune) (pos : Z) :
  insertChar s r pos = Ok s' -> len s + 1 <= len s'.
Proof.
  intros H. destruct (insertChar_inv _ _ _ _ H) as (pre & _ & Hl & Hp & ->).
  unfold len in *. rewrite !length_app.
  pose proof (string_of_length_ge pre) as H1.
  pose proof (EncodeRune_length r).
  pose proof (string_of_runes_length (skipn (Z.to_nat pos) s)) as H2.
  rewrite length_skipn in H2. lia.
Qed.


Lemma removeChar_ok (s : gostring) (pos : Z) :
  0 <= pos < RuneCount s -> len s < GoInt.max_int ->
  removeChar s pos =
  Ok (string_of (firstn (Z.to_nat pos) (runes s)
                 ++ skipn (Z.to_nat (pos + 1)) (runes s))).
Proof.
  intros H Hl. unfold removeChar. pose proof (RuneCount_le_len s).
  unfold RuneCount in *.
  rewrite runes_to_ok by lia.
  rewrite add_small by (unfold GoInt.in_range, GoInt.min_int, GoInt.max_int in *; lia).
  rewrite slice_from_ok by lia.
  cbn [bind]. rewrite string_of_app. reflexivity.
Qed.

Lemma removeChar_runes (s s' : gostring) (pos : Z) :
  0 <= pos < RuneCount s -> len s < GoInt.max_int ->
  removeChar s pos = Ok s' ->
  runes s' = firstn (Z.to_nat pos) (runes s) ++ skipn (Z.to_nat (pos + 1)) (runes s).
Proof.
  intros H Hl E. rewrite removeChar_ok in E by assumption.
  inversion E; subst s'. rewrite runes_string_of.
  apply map_sanitize_valid. apply Forall_app. split.
  - apply (Forall_firstn_skipn _ _ _ (runes_valid s)).
  - apply (Forall_firstn_skipn _ _ _ (runes_valid s)).
Qed.

End EditFacts.

(** ** Single-byte text *)

Section AsciiFacts.
Import UTF8.

Lemma runes_ascii_app (a b : gostring) :
  Forall ascii a -> runes (a ++ b) = map b2z a ++ runes b.
Proof.
  induction 1 as [|c a Hc _ IH]; [reflexivity|].
  cbn [app map]. rewrite runes_cons. unfold DecodeRune.
  unfold ascii in Hc. destruct (b2z c <? 128) eqn:E; [|apply Z.ltb_ge in E; lia].
  cbn [fst snd skipn]. rewrite IH. reflexivity.
Qed.

Lemma runes_ascii (a : gostring) : Forall ascii a -> runes a = map b2z a.
Proof.
  intros H. rewrite <- (app_nil_r a) at 1. rewrite runes_ascii_app by exact H.
  rewrite runes_nil. apply app_nil_r.
Qed.

Lemma RuneCount_ascii (a : gostring) : Forall ascii a -> RuneCount a = len a.
Proof.
  intros H. unfold RuneCount, len. rewrite runes_ascii by exact H.
  rewrite length_map. reflexivity.
Qed.

(** Where the text before the cursor is single-byte, the byte offset and the
    code-point offset agree and [insertChar] is the insert of the
    specification. *)
Lemma insertChar_ascii_prefix (s : gostring) (r : rune) (pos : Z) :
  0 <= pos <= len s ->
  Forall ascii (firstn (Z.to_nat pos) s) ->
  insertChar s r pos = Ok (insert_spec s pos r).
Proof.
  intros Hp Ha. unfold len in Hp.
  assert (Hr : runes s = map b2z (firstn (Z.to_nat pos) s)
                         ++ runes (skipn (Z.to_nat pos) s)).
  { rewrite <- (firstn_skipn (Z.to_nat pos) s) at 1. apply runes_ascii_app, Ha. }
  assert (Hl : length (map b2z (firstn (Z.to_nat pos) s)) = Z.to_nat pos).
  { rewrite length_map, length_firstn. lia. }
  rewrite insertChar_ok.
  2:{ unfold RuneCount, len. rewrite Hr, length_app, Hl. lia. }
  assert (Hs : skipn (Z.to_nat pos) (runes s) = runes (skipn (Z.to_nat pos) s)).
  { rewrite Hr at 1. rewrite skipn_app, Hl, Nat.sub_diag. cbn [skipn].
    rewrite skipn_all2 by lia. reflexivity. }
  unfold insert_spec. rewrite !string_of_app, Hs.
  replace (string_of [r]) with (EncodeRune r)
    by (unfold string_of; cbn [flat_map]; symmetry; apply app_nil_r).
  reflexivity.
Qed.

End AsciiFacts.

(** ** Validation *)

Ltac int_range := unfold GoInt.in_range, GoInt.min_int, GoInt.max_int in *; lia.



(** ** The key map and its visit *)

Lemma firstPressed_Some iter pressed key cmd :
  firstPressed iter pressed = Some (key, cmd) ->
  In (key, cmd) iter /\ pressed key = true.
Proof.
  induction iter as [|[k c] rest IH]; cbn [firstPressed]; [discriminate|].
  destruct (pressed k) eqn:E.
  - intros H. inversion H; subst. split; [left; reflexivity|exact E].
  - intros H. destruct (IH H) as [Hin Hp]. split; [right; exact Hin|exact Hp].
Qed.

Lemma firstPressed_None iter pressed :
  firstPressed iter pressed = None ->
  forall key cmd, In (key, cmd) iter -> pressed key = false.
Proof.
  induction iter as [|[k c] rest IH]; cbn [firstPressed]; intros H key cmd Hin.
  - destruct Hin.
  - destruct (pressed k) eqn:E; [discriminate|].
    destruct Hin as [Heq|Hin]; [inversion Heq; subst; exact E|].
    eapply IH; eassumption.
Qed.

Lemma key_has_command (key : ebiten.Key) :
  exists cmd, In (key, cmd) textInputKeyToCommand.
Proof.
  destruct key; eexists; cbn; eauto 10.
Qed.

Lemma command_of_key_unique key cmd cmd' :
  In (key, cmd) textInputKeyToCommand -> In (key, cmd') textInputKeyToCommand ->
  cmd = cmd'.
Proof.
  cbn. intros H H'.
  repeat (destruct H as [H|H]; [inversion H; subst; clear H|]); try contradiction;
    repeat (destruct H' as [H'|H']; [inversion H'; subst; clear H'|]);
    try contradiction; try reflexivity; try discriminate.
Qed.

Lemma key_of_command_unique key key' cmd :
  In (key, cmd) textInputKeyToCommand -> In (key', cmd) textInputKeyToCommand ->
  key = key'.
Proof.
  cbn. intros H H'.
  repeat (destruct H as [H|H]; [inversion H; subst; clear H|]); try contradiction;
    repeat (destruct H' as [H'|H']; [inversion H'; subst; clear H'|]);
    try contradiction; try reflexivity; try discriminate.
Qed.

Lemma firstPressed_None_all iter pressed :
  Permutation iter textInputKeyToCommand ->
  firstPressed iter pressed = None -> forall key, pressed key = false.
Proof.
  intros Hp H key. destruct (key_has_command key) as [cmd Hin].
  apply (firstPressed_None _ _ H key cmd).
  apply (Permutation_in _ (Permutation_sym Hp) Hin).
Qed.

Lemma firstPressed_is_Some iter pressed key :
  Permutation iter textInputKeyToCommand ->
  pressed key = true -> exists k c, firstPressed iter pressed = Some (k, c).
Proof.
  intros Hp Hk. destruct (firstPressed iter pressed) as [[k c]|] eqn:E.
  - eauto.
  - rewrite (firstPressed_None_all _ _ Hp E key) in Hk. discriminate.
Qed.

(** With a single key held, every visit order finds that key. *)
Lemma firstPressed_single iter pressed key cmd :
  Permutation iter textInputKeyToCommand ->
  In (key, cmd) textInputKeyToCommand ->
  pressed key = true ->
  (forall k, pressed k = true -> k = key) ->
  firstPressed iter pressed = Some (key, cmd).
Proof.
  intros Hp Hin Hk Hone.
  destruct (firstPressed_is_Some _ _ _ Hp Hk) as (k & c & E).
  destruct (firstPressed_Some _ _ _ _ E) as [Hin' Hk'].
  apply Hone in Hk'. subst k.
  apply (Permutation_in _ Hp) in Hin'.
  rewrite (command_of_key_unique _ _ _ Hin Hin'). exact E.
Qed.

(** ** The search of [fontStringIndex] *)

Lemma midpoint (start end_ : Z) :
  0 <= start <= end_ -> end_ <= GoInt.max_int ->
  start +! GoInt.quo (end_ -! start) 2 = start + (end_ - start) / 2.
Proof.
  intros H Hm.
  rewrite sub_small by int_range.
  unfold GoInt.quo. rewrite Z.quot_div_nonneg by lia.
  assert (0 <= (end_ - start) / 2 <= end_ - start).
  { split; [apply Z.div_pos; lia|]. apply Z.div_le_upper_bound; lia. }
  rewrite wrap_small by int_range. apply add_small. int_range.
Qed.

Lemma runes_to_advanceAt (s : gostring) (f : Face) (p : Z) sub :
  runes_to rt (UTF8.runes s) p = Ok sub ->
  fontAdvance (UTF8.string_of sub) f = advanceAt s f p.
Proof.
  intros H. unfold advanceAt. rewrite H. reflexivity.
Qed.

Lemma advanceAt_prefixAdvance (s : gostring) (f : Face) (p : Z) :
  0 <= p <= UTF8.RuneCount s -> advanceAt s f p = prefixAdvance s f p.
Proof.
  intros H. unfold advanceAt. rewrite runes_to_ok by exact H. reflexivity.
Qed.

Lemma slice_to_fuel {A : Type} (l : list A) (hi : Z) : slice_to l hi <> OutOfFuel.
Proof. unfold slice_to. destruct (_ && _); discriminate. Qed.

Lemma slice_from_fuel {A : Type} (l : list A) (lo : Z) : slice_from l lo <> OutOfFuel.
Proof. unfold slice_from. destruct (_ && _); discriminate. Qed.

Section Search.
Variables (s : gostring) (f : Face) (x : Z).
Hypothesis Hlen : len s <= GoInt.max_int.

(** The interval shrinks with every turn of the loop, so [len(s) + 1] turns
    are enough, and the index the loop is left with is a byte offset of
    [s]: inside the text when the loop was left by [break]. *)
Lemma fontStringIndex_loop_bounds (fuel : nat) : forall start end_,
  0 <= start <= end_ -> end_ <= len s ->
  (start = end_ -> len s = 0 \/ (start < len s /\ x -! advanceAt s f start < 0)) ->
  (Z.to_nat (end_ - start) < fuel)%nat ->
  match fontStringIndex_loop fuel s f x start end_ with
  | OutOfFuel => False
  | Panic => True
  | Ok (Returned p) => 0 <= p <= len s
  | Ok (Broke p) => 0 <= p <= len s /\ (0 < len s -> p < len s)
  end.
Proof.
  induction fuel as [|fuel IH]; intros start end_ Hse Hel Heq Hfuel; [lia|].
  cbn [fontStringIndex_loop].
  rewrite midpoint by lia.
  assert (Hd : 0 <= (end_ - start) / 2 <= end_ - start).
  { split; [apply Z.div_pos; lia|]. apply Z.div_le_upper_bound; lia. }
  assert (Hd' : 0 < end_ - start -> (end_ - start) / 2 < end_ - start).
  { intros. apply Z.div_lt_upper_bound; lia. }
  set (p := start + (end_ - start) / 2) in *.
  destruct (runes_to rt (UTF8.runes s) p) as [sub| |] eqn:Es; cbn [bind];
    [|exact I|exact (runes_to_fuel _ _ Es)].
  rewrite (runes_to_advanceAt _ _ _ _ Es).
  destruct (x -! advanceAt s f p =? 0) eqn:E0; [lia|].
  destruct (x -! advanceAt s f p >? 0) eqn:E1.
  - destruct (p =? start) eqn:E2; bool_hyps.
    + split; [lia|]. intros HL.
      destruct (Z.eq_dec start end_) as [->|Hne]; [|lia].
      destruct Heq as [H|[_ H]]; [reflexivity|lia|]. subst p.
      replace (end_ + (end_ - end_) / 2) with end_ in * by lia. lia.
    + apply IH; try lia.
  - destruct (end_ =? p) eqn:E2; bool_hyps.
    + split; [lia|]. intros HL.
      assert (start = end_) by lia.
      destruct Heq as [H'|[H' _]]; [assumption|lia|lia].
    + apply IH; try lia.
      intros Hsp. right. rewrite Hsp. split; lia.
Qed.

Lemma fontStringIndex_bounds :
  match fontStringIndex s f x with
  | OutOfFuel => False
  | Panic => True
  | Ok i => 0 <= i <= len s
  end.
Proof.
  unfold fontStringIndex, fontStringIndex_with.
  pose proof (fontStringIndex_loop_bounds (S (length s)) 0 (len s)) as H.
  unfold len in *.
  specialize (H ltac:(lia) ltac:(lia) ltac:(lia) ltac:(lia)).
  destruct (fontStringIndex_loop (S (length s)) s f x 0 (Z.of_nat (length s)))
    as [[p|p]| |]; cbn [bind]; try exact H; try exact I.
  destruct H as [Hp HL].
  destruct (Z.of_nat (length s) >? 0) eqn:E; [|exact Hp].
  destruct (runes_to rt (UTF8.runes s) p) eqn:E1; cbn [bind];
    [|exact I|exact (runes_to_fuel _ _ E1)].
  destruct (runes_to rt (UTF8.runes s) (p +! 1)) eqn:E2; cbn [bind];
    [|exact I|exact (runes_to_fuel _ _ E2)].
  destruct (_ <? _); [|exact Hp].
  rewrite add_small by int_range. lia.
Qed.

End Search.

Lemma doGoXY_bounds (x y : Z) (t : TextInput) :
  len (InputText t) <= GoInt.max_int ->
  match doGoXY x y t with
  | OutOfFuel => False
  | Panic => True
  | Ok t' => InputText t' = InputText t
             /\ (cursorPosition t' = cursorPosition t
                 \/ 0 <= cursorPosition t' <= len (InputText t))
  end.
Proof.
  intros Hl. unfold doGoXY.
  destruct (img.In _ _); [|split; [reflexivity|left; reflexivity]].
  match goal with
  | |- context [fontStringIndex ?s ?f ?x] =>
    pose proof (fontStringIndex_bounds s f x Hl) as H;
      destruct (fontStringIndex s f x) as [i| |]
  end; cbn [bind]; try exact H; try exact I.
  split; [reflexivity|right; exact H].
Qed.

(** ** The state machine *)

Lemma removeChar_fuel s pos : removeChar s pos <> OutOfFuel.
Proof.
  unfold removeChar.
  destruct (runes_to rt (UTF8.runes s) pos) eqn:E1; cbn [bind];
    [|discriminate|destruct (runes_to_fuel _ _ E1)].
  destruct (slice_from (UTF8.runes s) (pos +! 1)) eqn:E2; cbn [bind];
    [discriminate|discriminate|destruct (slice_from_fuel _ _ E2)].
Qed.

Lemma insertChar_fuel s r pos : insertChar s r pos <> OutOfFuel.
Proof.
  unfold insertChar.
  destruct (runes_to rt (UTF8.runes s) pos) eqn:E1; cbn [bind];
    [|discriminate|destruct (runes_to_fuel _ _ E1)].
  destruct (slice_from s pos) eqn:E2; cbn [bind];
    [discriminate|discriminate|destruct (slice_from_fuel _ _ E2)].
Qed.

Lemma doInsert_fuel c t : doInsert c t <> OutOfFuel.
Proof.
  unfold doInsert. pose proof (insertChar_fuel (InputText t) c (cursorPosition t)).
  destruct (insertChar _ _ _); cbn [bind]; try congruence.
  destruct (validationFunc t) as [v|]; [destruct (negb _)|]; discriminate.
Qed.

Lemma commandToFunc_fuel cmd t : commandToFunc cmd t <> OutOfFuel.
Proof.
  destruct cmd; cbn [commandToFunc];
    unfold doGoLeft, doGoRight, doGoStart, doGoEnd, doBackspace, doDelete;
    try discriminate.
  - destruct (_ >? _); cbn [bind]; [|discriminate].
    pose proof (removeChar_fuel (InputText t) (cursorPosition t -! 1)).
    destruct (removeChar _ _); cbn [bind]; congruence.
  - destruct (_ <? _); cbn [bind]; [|discriminate].
    pose proof (removeChar_fuel (InputText t) (cursorPosition t)).
    destruct (removeChar _ _); cbn [bind]; congruence.
Qed.

Lemma commandToFunc_set_state cmd st t :
  commandToFunc cmd (set_state st t)
  = (t' <- commandToFunc cmd t ;; Ok (set_state st t')).
Proof.
  destruct cmd; cbn [commandToFunc];
    unfold doGoLeft, doGoRight, doGoStart, doGoEnd, doBackspace, doDelete;
    cbn [cursorPosition InputText set_state];
    repeat match goal with
           | |- context [if ?b then _ else _] => destruct b
           | |- context [removeChar ?s ?p] => destruct (removeChar s p)
           end; reflexivity.
Qed.

Lemma runStates_S fuel env iter t :
  runStates (S fuel) env iter t
  = (r <- runState env iter (state t) t ;;
     let '(t', st', rerun, ev) := r in
     let t' := set_state st' t' in
     if (rerun : bool) then
       r' <- runStates fuel env iter t' ;;
       Ok (fst r', ev ++ snd r')
     else Ok (t', ev)).
Proof. reflexivity. Qed.

Lemma runStates_ends_frame fuel env iter t :
  ends_frame env (state t) ->
  match runStates (S fuel) env iter t with
  | OutOfFuel => False
  | Panic => True
  | Ok (t', ev) =>
    (executions ev <= 1)%nat
    /\ (forall cmd, In (Executed cmd) ev ->
          exists key delay, state t = commandState cmd key delay None)
  end.
Proof.
  intros He. rewrite runStates_S. unfold runState.
  destruct (state t) as [b|c|cmd key delay [deadline|]] eqn:Est;
    cbn [ends_frame] in He; try contradiction.
  - destruct (negb (Disabled (widget t))).
    + pose proof (doInsert_fuel c t).
      destruct (doInsert c t) as [t1| |]; cbn [bind]; try congruence; try exact I.
      split; [cbn; lia|]. intros cmd [Hc|[]]. discriminate.
    + cbn [bind]. split; [cbn; lia|]. intros cmd [].
  - rewrite He. cbn [negb].
    pose proof (commandToFunc_fuel cmd t).
    destruct (commandToFunc cmd t) as [t1| |]; cbn [bind]; try congruence; try exact I.
    split; [cbn; lia|]. intros cmd' [Hc|[]]. inversion Hc; subst. eauto.
Qed.

(** A frame that starts in an idle state. *)
Lemma runStates_idle fuel env iter t b :
  state t = idleState b ->
  len (InputText t) <= GoInt.max_int ->
  match runStates (S (S fuel)) env iter t with
  | OutOfFuel => False
  | Panic => True
  | Ok (t', ev) =>
    (executions ev <= 1)%nat
    /\ (forall cmd, In (Executed cmd) ev ->
          exists key, firstPressed iter (input.KeyPressed env) = Some (key, cmd))
  end.
Proof.
  intros Est Hl. rewrite runStates_S, Est. cbn [runState].
  destruct (input.InputChars env) as [|c cs].
  - destruct (firstPressed iter (input.KeyPressed env)) as [[key cmd]|] eqn:Ef.
    + cbn [bind].
      pose proof (runStates_ends_frame fuel env iter
                    (set_state (commandState cmd key
                                  (if b then repeatDelay t else repeatInterval t) None) t)) as H.
      cbn [state set_state ends_frame] in H.
      specialize (H (proj2 (firstPressed_Some _ _ _ _ Ef))).
      destruct (runStates (S fuel) env iter _) as [[t' ev]| |];
        cbn [bind fst snd app]; try exact H.
      destruct H as [H1 H2]. split; [exact H1|].
      intros cmd' Hin. destruct (H2 cmd' Hin) as (k & d & E).
      inversion E; subst. eauto.
    + destruct (input.MouseButtonJustPressedLayer env).
      * destruct (input.CursorPosition env) as [x y].
        pose proof (doGoXY_bounds x y t Hl) as H.
        destruct (doGoXY x y t) as [t1| |]; cbn [bind]; try exact H.
        split; [cbn; lia|]. intros cmd [Hc|[]]. discriminate.
      * cbn [bind]. split; [cbn; lia|]. intros cmd [].
  - cbn [bind].
    pose proof (runStates_ends_frame fuel env iter (set_state (charInputState c) t)) as H.
    cbn [state set_state ends_frame] in H. specialize (H I).
    destruct (runStates (S fuel) env iter _) as [[t' ev]| |];
      cbn [bind fst snd app]; try exact H.
    destruct H as [H1 H2]. split; [exact H1|].
    intros cmd' Hin. destruct (H2 cmd' Hin) as (k & d & E). discriminate.
Qed.

(** Any frame: the rerun loop ends within three calls, and executes at most
    one command; a command it executes is the one of the state the frame
    started in, run for the first time, or one the idle state picked from a
    held key. *)
Lemma runStates_frame fuel env iter t :
  len (InputText t) <= GoInt.max_int ->
  match runStates (S (S (S fuel))) env iter t with
  | OutOfFuel => False
  | Panic => True
  | Ok (t', ev) =>
    (executions ev <= 1)%nat
    /\ (forall cmd, In (Executed cmd) ev ->
          (exists key delay, state t = commandState cmd key delay None
                             /\ input.KeyPressed env key = true)
          \/ (exists key, firstPressed iter (input.KeyPressed env) = Some (key, cmd)))
  end.
Proof.
  intros Hl.
  destruct (state t) as [b|c|cmd key delay timer] eqn:Est.
  - pose proof (runStates_idle (S fuel) env iter t b Est Hl) as H.
    destruct (runStates _ _ _ _) as [[t' ev]| |]; try exact H.
    destruct H as [H1 H2]. split; [exact H1|]. intros cmd Hin. right. eauto.
  - pose proof (runStates_ends_frame (S (S fuel)) env iter t) as H.
    rewrite Est in H. specialize (H I).
    destruct (runStates _ _ _ _) as [[t' ev]| |]; try exact H.
    destruct H as [H1 H2]. split; [exact H1|]. intros cmd Hin.
    destruct (H2 cmd Hin) as (k & d & E). discriminate.
  - assert (Hidle : forall b,
               match runStates (S (S fuel)) env iter (set_state (idleState b) t) with
               | OutOfFuel => False
               | Panic => True
               | Ok (t', ev) =>
                 (executions ev <= 1)%nat
                 /\ (forall cmd, In (Executed cmd) ev ->
                       exists key, firstPressed iter (input.KeyPressed env) = Some (key, cmd))
               end).
    { intros b. apply (runStates_idle fuel env iter _ b); [reflexivity|exact Hl]. }
    rewrite runStates_S, Est. cbn [runState].
    destruct (input.KeyPressed env key) eqn:Ek; cbn [negb].
    + destruct timer as [deadline|].
      * destruct (deadline <=? input.now env).
        -- cbn [bind]. specialize (Hidle false).
           destruct (runStates (S (S fuel)) env iter _) as [[t' ev]| |];
             cbn [bind fst snd app]; try exact Hidle.
           destruct Hidle as [H1 H2]. split; [exact H1|]. intros c Hin. right. eauto.
        -- cbn [bind]. split; [cbn; lia|]. intros c [].
      * pose proof (commandToFunc_fuel cmd t).
        destruct (commandToFunc cmd t) as [t1| |]; cbn [bind]; try congruence; try exact I.
        split; [cbn; lia|]. intros c [Hc|[]]. inversion Hc; subst. left. eauto.
    + cbn [bind]. specialize (Hidle true).
      destruct (runStates (S (S fuel)) env iter _) as [[t' ev]| |];
        cbn [bind fst snd app]; try exact Hidle.
      destruct Hidle as [H1 H2]. split; [exact H1|]. intros c Hin. right. eauto.
Qed.

Lemma set_state_state t : set_state (state t) t = t.
Proof. destruct t; reflexivity. Qed.

Lemma runStates_fresh_command fuel env iter t cmd key delay t1 :
  state t = commandState cmd key delay None ->
  input.KeyPressed env key = true ->
  commandToFunc cmd t = Ok t1 ->
  runStates (S fuel) env iter t
  = Ok (set_state (commandState cmd key delay (Some (input.now env + delay))) t1,
        [Executed cmd]).
Proof.
  intros Est Hk Hc. rewrite runStates_S, Est. cbn [runState].
  rewrite Hk. cbn [negb]. rewrite Hc. reflexivity.
Qed.

Lemma runStates_idle_command fuel env iter t b cmd key t1 :
  state t = idleState b ->
  input.InputChars env = [] ->
  firstPressed iter (input.KeyPressed env) = Some (key, cmd) ->
  commandToFunc cmd t = Ok t1 ->
  let delay := if b then repeatDelay t else repeatInterval t in
  runStates (S (S fuel)) env iter t
  = Ok (set_state (commandState cmd key delay (Some (input.now env + delay))) t1,
        [Executed cmd]).
Proof.
  intros Est Hch Hf Hc delay. rewrite runStates_S, Est. cbn [runState].
  rewrite Hch, Hf. cbn [bind].
  rewrite (runStates_fresh_command fuel env iter _ cmd key delay
             (set_state (commandState cmd key delay None) t1)).
  - reflexivity.
  - reflexivity.
  - exact (proj2 (firstPressed_Some _ _ _ _ Hf)).
  - rewrite commandToFunc_set_state, Hc. reflexivity.
Qed.

Lemma NewTextInput_repeatDelay opts :
  repeatDelay (NewTextInput opts) = 300 * time.Millisecond.
Proof.
  unfold NewTextInput.
  match goal with |- repeatDelay (fold_left _ _ ?t0) = _ =>
    assert (H : repeatDelay t0 = 300 * time.Millisecond) by reflexivity;
    generalize dependent t0
  end.
  induction opts as [|o opts IH]; intros t0 H; [exact H|].
  cbn [fold_left]. apply IH. exact H.
Qed.

Lemma runStates_more_fuel n k env iter : forall t r,
  runStates n env iter t = Ok r -> runStates (n + k) env iter t = Ok r.
Proof.
  induction n as [|n IH]; intros t r; [discriminate|].
  cbn [Nat.add]. rewrite !runStates_S.
  destruct (runState env iter (state t) t) as [[[[t' st'] rerun] ev]| |];
    cbn [bind]; try discriminate.
  destruct rerun; [|exact (fun H => H)].
  destruct (runStates n env iter (set_state st' t')) as [r'| |] eqn:E;
    cbn [bind]; try discriminate.
  rewrite (IH _ _ E). exact (fun H => H).
Qed.

(** The visit order matters to a frame only through the key it finds. *)
Lemma runStates_iter_ext fuel env iter iter' :
  firstPressed iter (input.KeyPressed env) = firstPressed iter' (input.KeyPressed env) ->
  forall t, runStates fuel env iter t = runStates fuel env iter' t.
Proof.
  intros Hf. induction fuel as [|fuel IH]; intros t; [reflexivity|].
  rewrite !runStates_S.
  assert (Hs : runState env iter (state t) t = runState env iter' (state t) t).
  { destruct (state t); cbn [runState]; rewrite ?Hf; reflexivity. }
  rewrite Hs.
  destruct (runState env iter' (state t) t) as [[[[t' st'] rerun] ev]| |];
    cbn [bind]; try reflexivity.
  destruct rerun; [|reflexivity]. rewrite IH. reflexivity.
Qed.

Lemma firstPressed_app pre key cmd post pressed :
  (forall k c, In (k, c) pre -> pressed k = false) ->
  pressed key = true ->
  firstPressed (pre ++ (key, cmd) :: post) pressed = Some (key, cmd).
Proof.
  induction pre as [|[k c] pre IH]; intros Hpre Hk; cbn [app firstPressed].
  - rewrite Hk. reflexivity.
  - rewrite (Hpre k c (or_introl eq_refl)). apply IH; [|exact Hk].
    intros k' c' Hin. apply (Hpre k' c'). right. exact Hin.
Qed.

(** ** Sums that do not wrap *)

Ltac no_wrap_step :=
  match goal with
  | |- context [?a +! ?b] =>
    rewrite (add_small a b) by (unfold pixels in *; int_range)
  | |- context [?a -! ?b] =>
    rewrite (sub_small a b) by (unfold pixels in *; int_range)
  | H : context [?a +! ?b] |- _ =>
    rewrite (add_small a b) in H by (unfold pixels in *; int_range)
  | H : context [?a -! ?b] |- _ =>
    rewrite (sub_small a b) in H by (unfold pixels in *; int_range)
  end.

Ltac no_wrap := repeat no_wrap_step.

(** The search ends for every text, face and offset: the budget of
    [len(s) + 1] turns is never used up. *)
Lemma fontStringIndex_terminates (s : gostring) (f : Face) (x : Z) :
  len s <= GoInt.max_int -> fontStringIndex s f x <> OutOfFuel.
Proof.
  intros Hl E. pose proof (fontStringIndex_bounds s f x Hl) as H.
  rewrite E in H. exact H.
Qed.


(** ** The search on single-byte text *)

Section Nearest.
Variables (s : gostring) (f : Face) (x : Z).
Hypothesis Hsb : single_byte s.
Hypothesis Hlen : len s <= GoInt.max_int.
Hypothesis Hmono : nondecreasing s f.
Hypothesis Hadv : advances_small s f.
Hypothesis Hx : small x.

Local Abbreviation a := (prefixAdvance s f).

Lemma diff_exact (i : Z) : 0 <= i <= len s -> x -! a i = x - a i.
Proof.
  intros Hi. pose proof (Hadv i) as H. unfold single_byte in Hsb.
  rewrite Hsb in H. specialize (H Hi). unfold small in *.
  apply sub_small. int_range.
Qed.

Lemma float_diff_exact (i : Z) :
  0 <= i <= len s -> GoInt.Abs (GoInt.float64 (x -! a i)) = Z.abs (x - a i).
Proof.
  intros Hi. rewrite diff_exact by exact Hi.
  pose proof (Hadv i) as H. unfold single_byte in Hsb.
  rewrite Hsb in H. specialize (H Hi). unfold small in *.
  rewrite float64_exact by lia. reflexivity.
Qed.

Lemma slice_runes_ok (p : Z) :
  0 <= p <= len s ->
  runes_to rt (UTF8.runes s) p = Ok (firstn (Z.to_nat p) (UTF8.runes s)).
Proof.
  intros Hp. apply runes_to_ok. unfold single_byte, UTF8.RuneCount in Hsb. lia.
Qed.

Lemma fontStringIndex_loop_stops (fuel : nat) : forall start end_,
  0 <= start <= end_ -> end_ <= len s ->
  (0 < start -> a start < x) ->
  (end_ < len s -> x < a end_) ->
  (start = end_ -> len s = 0 \/ (start < len s /\ x < a start)) ->
  (Z.to_nat (end_ - start) < fuel)%nat ->
  exists e, fontStringIndex_loop fuel s f x start end_ = Ok e /\ stops_at s f x e.
Proof.
  induction fuel as [|fuel IH]; intros start end_ Hse Hel Hlo Hhi Heq Hfuel; [lia|].
  cbn [fontStringIndex_loop].
  rewrite midpoint by lia.
  assert (Hd : 0 <= (end_ - start) / 2 <= end_ - start).
  { split; [apply Z.div_pos; lia|]. apply Z.div_le_upper_bound; lia. }
  assert (Hd' : 0 < end_ - start -> (end_ - start) / 2 < end_ - start).
  { intros. apply Z.div_lt_upper_bound; lia. }
  assert (Hd1 : (end_ - start) / 2 = 0 -> end_ - start <= 1).
  { intros H0. destruct (Z.le_gt_cases 2 (end_ - start)) as [H2|H2]; [|lia].
    pose proof (Z.div_le_mono 2 (end_ - start) 2 ltac:(lia) H2) as H3.
    rewrite Z.div_same in H3 by lia. lia. }
  set (p := start + (end_ - start) / 2) in *.
  rewrite slice_runes_ok by lia. cbn [bind].
  change (fontAdvance (UTF8.string_of (firstn (Z.to_nat p) (UTF8.runes s))) f)
    with (a p).
  rewrite diff_exact by lia.
  destruct (x - a p =? 0) eqn:E0; bool_hyps.
  { eexists. split; [reflexivity|]. cbn [stops_at]. lia. }
  destruct (x - a p >? 0) eqn:E1; bool_hyps.
  - destruct (p =? start) eqn:E2; bool_hyps.
    + eexists. split; [reflexivity|]. cbn [stops_at].
      destruct (Z.eq_dec start end_) as [He|Hne].
      * destruct (Heq He) as [H|[H1 H2]]; [left; lia|].
        replace p with start in * by lia. lia.
      * right. split; [lia|]. left. split; [lia|].
        intros Hp1. replace (p + 1) with end_ by lia. apply Hhi. lia.
    + apply IH; intros; lia.
  - destruct (end_ =? p) eqn:E2; bool_hyps.
    + eexists. split; [reflexivity|]. cbn [stops_at].
      assert (He : start = end_) by lia.
      destruct (Heq He) as [H|[H1 H2]]; [left; lia|].
      right. split; [lia|]. right.
      destruct (Z.eq_dec start 0) as [H0|H0];
        [|specialize (Hlo ltac:(lia)); lia].
      split; [lia|]. rewrite <- H0. exact H2.
    + apply IH; intros; try lia.
      right. replace start with p by lia. split; lia.
Qed.

(** On single-byte text with non-decreasing advances the index returned is
    a boundary nearest to the offset, and of two boundaries equally near on
    either side of the offset it is the smaller. *)
Lemma fontStringIndex_nearest :
  exists i,
    fontStringIndex s f x = Ok i
    /\ 0 <= i <= UTF8.RuneCount s
    /\ (forall j, 0 <= j <= UTF8.RuneCount s -> distance s f x i <= distance s f x j)
    /\ (forall j, 0 <= j <= UTF8.RuneCount s ->
                  distance s f x i = distance s f x j ->
                  prefixAdvance s f i <> prefixAdvance s f j -> i <= j).
Proof.
  unfold distance.
  assert (Hm : forall i j, 0 <= i <= j -> j <= len s -> a i <= a j).
  { intros i j Hij Hj. apply Hmono; [exact Hij|]. rewrite Hsb. exact Hj. }
  rewrite Hsb.
  unfold fontStringIndex, fontStringIndex_with.
  destruct (fontStringIndex_loop_stops (S (length s)) 0 (len s)) as (e & He & Hstop);
    try (unfold len; lia).
  rewrite He. cbn [bind]. destruct e as [p|p]; cbn [stops_at] in Hstop.
  - exists p. split; [reflexivity|]. split; [lia|]. split; intros j Hj; lia.
  - destruct Hstop as [[HL Hp]|[Hp Hcase]].
    + destruct (len s >? 0) eqn:E; [rewrite Z.gtb_ltb in E; apply Z.ltb_lt in E; lia|].
      exists p. split; [reflexivity|]. subst p.
      split; [lia|]. split; intros j Hj; assert (j = 0) by lia; subst j; lia.
    + destruct (len s >? 0) eqn:E;
        [|rewrite Z.gtb_ltb in E; apply Z.ltb_ge in E; lia].
      rewrite !slice_runes_ok by (rewrite ?add_small by int_range; lia).
      cbn [bind]. rewrite add_small by int_range.
      change (fontAdvance (UTF8.string_of (firstn (Z.to_nat p) (UTF8.runes s))) f)
        with (a p).
      change (fontAdvance (UTF8.string_of (firstn (Z.to_nat (p + 1)) (UTF8.runes s))) f)
        with (a (p + 1)).
      rewrite !float_diff_exact by lia.
      assert (Hfun : forall u v, u = v -> a u = a v) by (intros; subst; reflexivity).
      pose proof (Hm p (p + 1) ltac:(lia) ltac:(lia)) as Hstep.
      pose proof (Hm 0 p ltac:(lia) ltac:(lia)) as H0p.
      pose proof (Hm (p + 1) (len s) ltac:(lia) ltac:(lia)) as HpL.
      pose proof (Hfun p 0) as Hp0. pose proof (Hfun (p + 1) (len s)) as Hp1L.
      assert (Hfacts : forall j, 0 <= j <= len s ->
                 (j <= p -> a j <= a p) /\ (p + 1 <= j -> a (p + 1) <= a j)
                 /\ a 0 <= a j /\ a j <= a (len s)
                 /\ (j = p -> a j = a p) /\ (j = p + 1 -> a j = a (p + 1))
                 /\ (j = len s -> a j = a (len s))).
      { intros j Hj. repeat split; intros; try (apply Hm; lia); apply Hfun; assumption. }
      destruct (Z.abs (x - a (p + 1)) <? Z.abs (x - a p)) eqn:Ecmp;
        [apply Z.ltb_lt in Ecmp|apply Z.ltb_ge in Ecmp].
      * exists (p + 1). split; [reflexivity|]. split; [lia|].
        split; intros j Hj; pose proof (Hfacts j Hj); lia.
      * exists p. split; [reflexivity|]. split; [lia|].
        split; intros j Hj; pose proof (Hfacts j Hj); lia.
Qed.

End Nearest.

(** ** The cursor stays within the bytes of the text *)









(** ** Insert and backspace *)

Lemma insert_spec_runes (s : gostring) (pos : Z) (r : rune) :
  UTF8.runes (insert_spec s pos r)
  = firstn (Z.to_nat pos) (UTF8.runes s)
    ++ [UTF8.sanitize r]
    ++ skipn (Z.to_nat pos) (UTF8.runes s).
Proof.
  unfold insert_spec. rewrite runes_string_of, !map_app.
  rewrite map_sanitize_firstn, map_sanitize_skipn.
  reflexivity.
Qed.

Lemma ascii_prefix_RuneCount (s : gostring) (pos : Z) :
  0 <= pos <= len s ->
  Forall ascii (firstn (Z.to_nat pos) s) ->
  pos <= UTF8.RuneCount s.
Proof.
  intros Hp Ha. unfold UTF8.RuneCount, len in *.
  rewrite <- (firstn_skipn (Z.to_nat pos) s) at 1.
  rewrite runes_ascii_app by exact Ha.
  rewrite length_app, length_map, length_firstn. lia.
Qed.

Lemma restore_text_and_cursor (t : TextInput) s1 c1 :
  set_cursorPosition (cursorPosition t)
    (set_InputText (InputText t) (set_cursorPosition c1 (set_InputText s1 t))) = t.
Proof. destruct t; reflexivity. Qed.

Lemma removeChar_outside (s : gostring) (pos : Z) :
  len s < GoInt.max_int ->
  pos < 0 \/ UTF8.RuneCount s <= pos -> removeChar s pos = Panic.
Proof.
  intros Hl Hp. pose proof (RuneCount_le_len s) as Hr.
  unfold removeChar.
  destruct (runes_to rt (UTF8.runes s) pos) as [pre| |] eqn:E1; cbn [bind];
    [|reflexivity|destruct (runes_to_fuel _ _ E1)].
  unfold UTF8.RuneCount in *.
  apply runes_to_int in E1; [|lia].
  rewrite slice_from_panic; [reflexivity|].
  destruct (Z.eq_dec pos GoInt.max_int) as [->|Hne].
  - left. vm_compute. reflexivity.
  - right. rewrite add_small by int_range. lia.
Qed.

(** ** Calls under another state *)

Lemma doInsert_set_state c st t :
  doInsert c (set_state st t) = (t' <- doInsert c t ;; Ok (set_state st t')).
Proof.
  unfold doInsert. cbn [InputText cursorPosition validationFunc set_state].
  destruct (insertChar (InputText t) c (cursorPosition t)); cbn [bind]; try reflexivity.
  destruct (validationFunc t) as [v|]; [destruct (negb (v a))|]; reflexivity.
Qed.

Lemma doGoXY_set_state x y st t :
  doGoXY x y (set_state st t) = (t' <- doGoXY x y t ;; Ok (set_state st t')).
Proof.
  unfold doGoXY. cbn [widget padding InputText face scrollOffset set_state].
  destruct (img.In _ _); [|reflexivity].
  destruct (fontStringIndex _ _ _); reflexivity.
Qed.


(** ** Clicks *)

Lemma clampToContent_idem (t : TextInput) (x : Z) :
  clampToContent t (clampToContent t x) = clampToContent t x.
Proof.
  unfold clampToContent.
  set (lo := img.X (img.Min (Insets_Apply (padding t) (Rect (widget t))))).
  set (hi := img.X (img.Max (Insets_Apply (padding t) (Rect (widget t))))).
  destruct (x <? lo) eqn:E1;
    [apply Z.ltb_lt in E1|apply Z.ltb_ge in E1].
  - destruct (lo >? hi) eqn:E2; rewrite Z.gtb_ltb in E2;
      [apply Z.ltb_lt in E2|apply Z.ltb_ge in E2].
    + destruct (hi <? lo) eqn:E3; [|apply Z.ltb_ge in E3; lia].
      destruct (lo >? hi) eqn:E4; [reflexivity|].
      rewrite Z.gtb_ltb in E4. apply Z.ltb_ge in E4. lia.
    + destruct (lo <? lo) eqn:E3; [apply Z.ltb_lt in E3; lia|].
      destruct (lo >? hi) eqn:E4; [|reflexivity].
      rewrite Z.gtb_ltb in E4. apply Z.ltb_lt in E4. lia.
  - destruct (x >? hi) eqn:E2; rewrite Z.gtb_ltb in E2;
      [apply Z.ltb_lt in E2|apply Z.ltb_ge in E2].
    + destruct (hi <? lo) eqn:E3;
        [apply Z.ltb_lt in E3|apply Z.ltb_ge in E3].
      * destruct (lo >? hi) eqn:E4; [reflexivity|].
        rewrite Z.gtb_ltb in E4. apply Z.ltb_ge in E4. lia.
      * destruct (hi >? hi) eqn:E4; reflexivity.
    + rewrite (proj2 (Z.ltb_ge x lo) E1).
      destruct (x >? hi) eqn:E4; [|reflexivity].
      rewrite Z.gtb_ltb in E4. apply Z.ltb_lt in E4. lia.
Qed.

Lemma doGoXY_inside (x y : Z) (t : TextInput) :
  img.In {| img.X := x; img.Y := y |} (Rect (widget t)) = true ->
  doGoXY x y t
  = (i <- fontStringIndex (InputText t) (face t)
            (clampToContent t x -! scrollOffset t
             -! img.X (img.Min (Insets_Apply (padding t) (Rect (widget t))))) ;;
     Ok (ResetBlinking (set_cursorPosition i t))).
Proof.
  intros Hin. unfold doGoXY. rewrite Hin. reflexivity.
Qed.


(** ** The scroll offset of a frame *)

Lemma drawTextAndCaret_scrollAfter (t : TextInput) :
  cursor_in_bytes t ->
  scene_in_pixels_scrolled t ->
  exists t',
    drawTextAndCaret t = Ok t'
    /\ scrollOffset t'
       = scrollAfter (img.X (img.Min (Rect (widget t))))
                     (img.X (img.Max (Rect (widget t))))
                     (Left (padding t)) (Right (padding t))
                     (Width (caret t)) (caretX t) (scrollOffset t)
    /\ InputText t' = InputText t /\ cursorPosition t' = cursorPosition t
    /\ face t' = face t /\ padding t' = padding t /\ widget t' = widget t
    /\ Width (caret t') = Width (caret t).
Proof.
  intros Hc (Hx0 & Hx1 & Hl & Hr & Hs & Hcx & Hw).
  unfold cursor_in_bytes in Hc. unfold caretX, scrollAfter in *.
  unfold drawTextAndCaret. rewrite slice_to_ok by exact Hc. cbn [bind].
  set (cx := fontAdvance (firstn (Z.to_nat (cursorPosition t)) (InputText t)) (face t)) in *.
  cbn [img.Add img.Min img.Max img.X img.Point_Add img.Point_Sub] in *.
  set (x0 := img.X (img.Min (Rect (widget t)))) in *.
  set (x1 := img.X (img.Max (Rect (widget t)))) in *.
  set (pl := Left (padding t)) in *. set (pr := Right (padding t)) in *.
  set (so := scrollOffset t) in *. set (cw := Width (caret t)) in *.
  no_wrap.
  destruct (x0 + pl + so + cx + cw + pr - x1 >? 0) eqn:E1; bool_hyps;
    cbn [scrollOffset set_scrollOffset padding]; fold so; fold pl; no_wrap;
    match goal with
    | |- context [?d <? 0] => destruct (d <? 0) eqn:E2
    end; bool_hyps;
    eexists; (split; [reflexivity|]);
    cbn [scrollOffset set_scrollOffset set_text set_caret caret widget padding
         Caret_SetLocation caretRect Width InputText cursorPosition face];
    fold so; fold x0; fold x1; fold pl; fold pr; fold cw; no_wrap;
    repeat split; try reflexivity.
Qed.

Lemma scrollAfter_stable (x0 x1 pl pr cw cx so : Z) :
  scrollAfter x0 x1 pl pr cw cx (scrollAfter x0 x1 pl pr cw cx so)
  = scrollAfter x0 x1 pl pr cw cx so.
Proof.
  unfold scrollAfter.
  repeat match goal with
         | |- context [?a >? ?b] => rewrite (Z.gtb_ltb a b)
         end.
  repeat match goal with
         | |- context [if ?a <? ?b then _ else _] =>
           let E := fresh "E" in
           destruct (a <? b) eqn:E;
           [apply Z.ltb_lt in E|apply Z.ltb_ge in E]
         end; lia.
Qed.

Lemma scrollAfter_range (x0 x1 pl pr cw cx so : Z) :
  pixels x0 -> pixels x1 -> pixels pl -> pixels pr -> pixels cw -> pixels cx ->
  - 2 ^ 59 <= so <= 2 ^ 59 ->
  - 2 ^ 59 <= scrollAfter x0 x1 pl pr cw cx so <= 2 ^ 59.
Proof.
  unfold pixels, scrollAfter. intros.
  repeat match goal with
         | |- context [?a >? ?b] => rewrite (Z.gtb_ltb a b)
         end.
  repeat match goal with
         | |- context [if ?a <? ?b then _ else _] =>
           let E := fresh "E" in
           destruct (a <? b) eqn:E;
           [apply Z.ltb_lt in E|apply Z.ltb_ge in E]
         end; lia.
Qed.

(** ** The fill layout *)

Lemma NewFillLayout_clean (opts : list FillLayout.FillLayoutOpt) :
  FillLayout.dirty (FillLayout.NewFillLayout opts) = false.
Proof.
  unfold FillLayout.NewFillLayout.
  match goal with |- FillLayout.dirty (fold_left _ _ ?f0) = _ =>
    assert (H : FillLayout.dirty f0 = false) by reflexivity; generalize dependent f0
  end.
  induction opts as [|o opts IH]; intros f0 H; [exact H|].
  cbn [fold_left]. apply IH. destruct o. exact H.
Qed.


(** ** Edits and the code points *)

Lemma removeChar_inv (s s' : gostring) (pos : Z) :
  len s < GoInt.max_int ->
  removeChar s pos = Ok s' -> 0 <= pos < UTF8.RuneCount s.
Proof.
  intros Hl. unfold removeChar.
  destruct (runes_to rt (UTF8.runes s) pos) as [pre| |] eqn:E1; cbn [bind]; try discriminate.
  destruct (slice_from (UTF8.runes s) (pos +! 1)) as [suf| |] eqn:E2; cbn [bind];
    try discriminate.
  intros _. pose proof (RuneCount_le_len s) as Hr. unfold UTF8.RuneCount in *.
  apply runes_to_int in E1; [|lia]. apply slice_from_inv in E2.
  destruct E2 as [H2 _].
  destruct (Z.eq_dec pos GoInt.max_int) as [->|Hne].
  - exfalso. revert H2. vm_compute. intros [H _]. apply H. reflexivity.
  - rewrite add_small in H2 by int_range. lia.
Qed.

Lemma removeChar_RuneCount (s s' : gostring) (pos : Z) :
  len s < GoInt.max_int ->
  removeChar s pos = Ok s' -> UTF8.RuneCount s' = UTF8.RuneCount s - 1.
Proof.
  intros Hl E. pose proof (removeChar_inv s s' pos Hl E) as Hp.
  pose proof (removeChar_runes s s' pos Hp Hl E) as Hr.
  unfold UTF8.RuneCount, len in *.
  rewrite Hr, length_app, length_firstn, length_skipn. lia.
Qed.


(** ** The budget of the rerun loop *)

Lemma runStates_fuel_mono n k env iter : forall t,
  runStates n env iter t <> OutOfFuel ->
  runStates (n + k) env iter t = runStates n env iter t.
Proof.
  induction n as [|n IH]; intros t; [intros H; destruct (H eq_refl)|].
  cbn [Nat.add]. rewrite !runStates_S.
  destruct (runState env iter (state t) t) as [[[[t' st'] rerun] ev]| |];
    cbn [bind]; try reflexivity.
  destruct rerun; [|reflexivity].
  intros H. rewrite IH; [reflexivity|].
  intros E. rewrite E in H. apply H. reflexivity.
Qed.


(** * The claims *)

(** C1, at the input where the code leaves it: the text is U+00E9 (two
    bytes, one code point), the cursor is behind it at code point 1 and [x]
    is typed.  The specification's insert gives the two code points U+00E9
    and [x]; [insertChar] cuts the rest of the text at byte 1, in the middle
    of U+00E9, and appends U+FFFD for the stray byte. *)
Theorem insertChar_cuts_rest_at_byte_offset :
  UTF8.RuneCount e_acute = 1
  /\ insertChar e_acute 0x78 1 = Ok [xc3; xa9; x78; xef; xbf; xbd]
  /\ insert_spec e_acute 1 0x78 = [xc3; xa9; x78]
  /\ insertChar e_acute 0x78 1 <> Ok (insert_spec e_acute 1 0x78).
Proof.
  repeat split; try reflexivity. vm_compute. discriminate.
Qed.


(** C3, at inputs where the code leaves it: the text is U+00E9, one code
    point in two bytes.  The End command, the Right command pressed twice and
    the clamp at the start of [Render] all bound the cursor by the byte
    length 2, so the cursor ends at 2, outside the code points of the text.
    The state is reached from a new widget by typing U+00E9 in one frame and
    holding Right in the next. *)
Theorem cursor_bounded_by_byte_length :
  UTF8.RuneCount e_acute = 1
  /\ cursor_in_code_points (textInputWith e_acute 0)
  /\ cursorOf (doGoEnd (textInputWith e_acute 0)) = Ok 2
  /\ cursorOf (t <- doGoRight (textInputWith e_acute 0) ;; doGoRight t) = Ok 2
  /\ cursorPosition (clampCursor (textInputWith e_acute 7)) = 2
  /\ (exists t', Render (frame 0 [] (held ebiten.KeyEnd)) iterSource
                        (textInputWith e_acute 0)
                 = Ok (t', [Executed textInputGoEnd])
                 /\ InputText t' = e_acute
                 /\ cursorPosition t' = 2
                 /\ ~ cursor_in_code_points t')
  /\ (exists t', RenderAll [frame 0 [0xE9] noKeys;
                            frame 1 [] (held ebiten.KeyRight)]
                           iterSource (NewTextInput [FaceOpt face10])
                 = Ok t'
                 /\ InputText t' = e_acute
                 /\ cursorPosition t' = 2
                 /\ ~ cursor_in_code_points t').
Proof.
  split; [reflexivity|]. split; [vm_compute; split; discriminate|].
  split; [reflexivity|]. split; [reflexivity|]. split; [reflexivity|].
  split.
  - eexists. split; [vm_compute; reflexivity|].
    split; [reflexivity|]. split; [reflexivity|].
    intros [_ H]. vm_compute in H. apply H. reflexivity.
  - eexists. split; [vm_compute; reflexivity|].
    split; [reflexivity|]. split; [reflexivity|].
    intros [_ H]. vm_compute in H. apply H. reflexivity.
Qed.

(** C5, amended: in the scenario, a click at x = 5 puts the cursor at index
    0 and a click at x = 15, halfway between the boundaries at 10 and 20,
    puts it at index 1, the smaller of the two; from x = 16 on the click
    reaches index 2.  The same holds for the click taken through a frame of
    the state machine. *)
Theorem click_positions_in_ab :
  cursorOf (doGoXY 5 5 clickScene) = Ok 0
  /\ cursorOf (doGoXY 15 5 clickScene) = Ok 1
  /\ cursorOf (doGoXY 16 5 clickScene) = Ok 2
  /\ cursorOf (widgetOf (Render (click 0 5 5) iterSource clickScene)) = Ok 0
  /\ cursorOf (widgetOf (Render (click 0 15 5) iterSource clickScene)) = Ok 1
  /\ eventsOf (Render (click 0 15 5) iterSource clickScene) = Ok [Clicked 15 5]
  /\ fontAdvance [x61] face_ab = 10
  /\ fontAdvance text_ab face_ab = 20
  /\ img.X (img.Min (Insets_Apply (padding clickScene) (Rect (widget clickScene)))) = 0
  /\ scrollOffset clickScene = 0.
Proof.
  repeat split; vm_compute; reflexivity.
Qed.

(** C6: a command key found held by the idle state runs its command at
    once, in the same frame, and starts a timer of [repeatDelay]; while the
    key stays held no frame before the timer's instant runs anything; the
    first frame at or after that instant runs the command once more and
    starts a timer of [repeatInterval], so every later repeat waits for the
    interval.  No frame, whatever its state and sample, runs more than one
    command, and the rerun loop ends within three calls.  The delay of a new
    text input is 300ms under every option, its interval 35ms unless
    configured. *)
Theorem key_repeat_timing
    (env : input.Sample) (iter : list (ebiten.Key * textInputControlCommand))
    (t t1 : TextInput) (key : ebiten.Key) (cmd : textInputControlCommand) :
  input.InputChars env = [] ->
  firstPressed iter (input.KeyPressed env) = Some (key, cmd) ->
  commandToFunc cmd t = Ok t1 ->
  (state t = idleState true ->
   forall fuel,
     runStates (3 + fuel) env iter t
     = Ok (set_state (commandState cmd key (repeatDelay t)
                        (Some (input.now env + repeatDelay t))) t1,
           [Executed cmd]))
  /\ (forall delay deadline,
        state t = commandState cmd key delay (Some deadline) ->
        input.now env < deadline ->
        forall fuel, runStates (3 + fuel) env iter t = Ok (t, []))
  /\ (forall delay deadline,
        state t = commandState cmd key delay (Some deadline) ->
        deadline <= input.now env ->
        forall fuel,
          runStates (3 + fuel) env iter t
          = Ok (set_state (commandState cmd key (repeatInterval t)
                             (Some (input.now env + repeatInterval t))) t1,
                [Executed cmd]))
  /\ (forall env' iter' t' fuel,
        len (InputText t') <= GoInt.max_int ->
        runStates (3 + fuel) env' iter' t' <> OutOfFuel
        /\ forall r, runStates (3 + fuel) env' iter' t' = Ok r ->
                     (executions (snd r) <= 1)%nat)
  /\ (forall opts, repeatDelay (NewTextInput opts) = 300 * time.Millisecond)
  /\ repeatInterval (NewTextInput []) = 35 * time.Millisecond.
Proof.
  intros Hch Hf Hc.
  pose proof (proj2 (firstPressed_Some _ _ _ _ Hf)) as Hk.
  split; [|split; [|split; [|split; [|split]]]].
  - intros Est fuel.
    exact (runStates_idle_command (S fuel) env iter t true cmd key t1 Est Hch Hf Hc).
  - intros delay deadline Est Hlt fuel.
    change (3 + fuel)%nat with (S (S (S fuel))).
    rewrite runStates_S, Est. cbn [runState]. rewrite Hk. cbn [negb].
    destruct (deadline <=? input.now env) eqn:E; [apply Z.leb_le in E; lia|].
    cbn [bind]. rewrite <- Est, set_state_state. reflexivity.
  - intros delay deadline Est Hle fuel.
    change (3 + fuel)%nat with (S (S (S fuel))).
    rewrite runStates_S, Est. cbn [runState]. rewrite Hk. cbn [negb].
    destruct (deadline <=? input.now env) eqn:E; [|apply Z.leb_gt in E; lia].
    cbn [bind].
    rewrite (runStates_idle_command fuel env iter _ false cmd key
               (set_state (idleState false) t1)).
    + reflexivity.
    + reflexivity.
    + exact Hch.
    + exact Hf.
    + rewrite commandToFunc_set_state, Hc. reflexivity.
  - intros env' iter' t' fuel Hl.
    pose proof (runStates_frame fuel env' iter' t' Hl) as H.
    change (3 + fuel)%nat with (S (S (S fuel))).
    destruct (runStates _ _ _ _) as [[t2 ev]| |]; try contradiction.
    + split; [discriminate|]. intros r Hr. inversion Hr; subst. exact (proj1 H).
    + split; [discriminate|]. intros r Hr. discriminate.
  - apply NewTextInput_repeatDelay.
  - reflexivity.
Qed.

(** The timing scenario of the specification: Backspace held on ["hello"],
    cursor at the end, delay 300ms and interval 35ms.  The text is ["hell"]
    from the first frame up to 299ms, ["hel"] from 300ms up to 334ms and
    ["he"] at 335ms. *)
Lemma backspace_repeat_scenario :
  textOf (RenderAll [holdBackspace (ms 0)] iterSource hello_at_end)
  = Ok [x68; x65; x6c; x6c]
  /\ textOf (RenderAll [holdBackspace (ms 0); holdBackspace (ms 150);
                        holdBackspace (ms 299)] iterSource hello_at_end)
     = Ok [x68; x65; x6c; x6c]
  /\ textOf (RenderAll [holdBackspace (ms 0); holdBackspace (ms 150);
                        holdBackspace (ms 299); holdBackspace (ms 300)]
                       iterSource hello_at_end)
     = Ok [x68; x65; x6c]
  /\ textOf (RenderAll [holdBackspace (ms 0); holdBackspace (ms 150);
                        holdBackspace (ms 299); holdBackspace (ms 300);
                        holdBackspace (ms 334)] iterSource hello_at_end)
     = Ok [x68; x65; x6c]
  /\ textOf (RenderAll [holdBackspace (ms 0); holdBackspace (ms 150);
                        holdBackspace (ms 299); holdBackspace (ms 300);
                        holdBackspace (ms 334); holdBackspace (ms 335)]
                       iterSource hello_at_end)
     = Ok [x68; x65].
Proof.
  repeat split; vm_compute; reflexivity.
Qed.

(** C7: when the key of a command state is seen released, the call leaves
    the widget untouched and hands over to the idle state with a rerun, in
    the same evaluation, whether or not the timer has run out; no frame that
    starts this way executes the command of that key, and with nothing else
    held, typed or clicked the frame ends idle with no edit at all. *)
Theorem release_goes_idle_without_repeat
    (env : input.Sample) (iter : list (ebiten.Key * textInputControlCommand))
    (t : TextInput) (cmd : textInputControlCommand) (key : ebiten.Key)
    (delay : time.Duration) (timer : option Z) :
  Permutation iter textInputKeyToCommand ->
  In (key, cmd) textInputKeyToCommand ->
  state t = commandState cmd key delay timer ->
  input.KeyPressed env key = false ->
  len (InputText t) <= GoInt.max_int ->
  runState env iter (state t) t = Ok (t, idleState true, true, [])
  /\ (forall fuel, runStates (3 + fuel) env iter t <> OutOfFuel)
  /\ (forall fuel r, runStates fuel env iter t = Ok r ->
                     ~ In (Executed cmd) (snd r))
  /\ (input.InputChars env = [] ->
      (forall k, input.KeyPressed env k = false) ->
      input.MouseButtonJustPressedLayer env = false ->
      forall fuel,
        runStates (2 + fuel) env iter t = Ok (set_state (idleState true) t, [])).
Proof.
  intros Hp Hin Est Hk Hl.
  split; [|split; [|split]].
  - rewrite Est. cbn [runState]. rewrite Hk. reflexivity.
  - intros fuel. pose proof (runStates_frame fuel env iter t Hl) as H.
    change (3 + fuel)%nat with (S (S (S fuel))).
    destruct (runStates _ _ _ _); [discriminate|discriminate|contradiction].
  - intros fuel r Hr Hex.
    apply (runStates_more_fuel _ 3) in Hr.
    replace (fuel + 3)%nat with (S (S (S fuel))) in Hr by lia.
    pose proof (runStates_frame fuel env iter t Hl) as H.
    rewrite Hr in H. destruct r as [t' ev]. cbn [snd] in Hex.
    destruct (proj2 H cmd Hex) as [(k & d & E & Hk')|(k & Hf)].
    + rewrite Est in E. inversion E; subst. congruence.
    + destruct (firstPressed_Some _ _ _ _ Hf) as [Hin' Hk'].
      apply (Permutation_in _ Hp) in Hin'.
      rewrite (key_of_command_unique _ _ _ Hin' Hin) in Hk'. congruence.
  - intros Hch Hnone Hm fuel.
    change (2 + fuel)%nat with (S (S fuel)).
    rewrite runStates_S, Est. cbn [runState]. rewrite Hk. cbn [negb bind].
    rewrite runStates_S. cbn [state set_state runState]. rewrite Hch.
    destruct (firstPressed iter (input.KeyPressed env)) as [[k c]|] eqn:Ef.
    + pose proof (proj2 (firstPressed_Some _ _ _ _ Ef)) as Hk'.
      rewrite (Hnone k) in Hk'. discriminate.
    + rewrite Hm. reflexivity.
Qed.

(** C9, amended: whatever order the visit of the key map takes, the idle
    state enters the command state of exactly one held key, the first held
    one in that order; the order itself is not fixed by the program.  When a
    single control key is held every order finds it, and the whole frame is
    the same under every order. *)
Theorem first_held_key_in_visit_order_wins
    (env : input.Sample) (iter : list (ebiten.Key * textInputControlCommand))
    (t : TextInput) (b : bool) (held_key : ebiten.Key) :
  Permutation iter textInputKeyToCommand ->
  state t = idleState b ->
  input.InputChars env = [] ->
  input.KeyPressed env held_key = true ->
  (exists key cmd,
      firstPressed iter (input.KeyPressed env) = Some (key, cmd)
      /\ input.KeyPressed env key = true
      /\ In (key, cmd) textInputKeyToCommand
      /\ runState env iter (state t) t
         = Ok (t, commandState cmd key
                    (if b then repeatDelay t else repeatInterval t) None,
               true, []))
  /\ (forall pre key cmd post,
        iter = pre ++ (key, cmd) :: post ->
        (forall k c, In (k, c) pre -> input.KeyPressed env k = false) ->
        input.KeyPressed env key = true ->
        firstPressed iter (input.KeyPressed env) = Some (key, cmd))
  /\ ((forall k, input.KeyPressed env k = true -> k = held_key) ->
      forall iter' fuel,
        Permutation iter' textInputKeyToCommand ->
        firstPressed iter' (input.KeyPressed env)
        = firstPressed iter (input.KeyPressed env)
        /\ runStates fuel env iter' t = runStates fuel env iter t).
Proof.
  intros Hp Est Hch Hheld.
  split; [|split].
  - destruct (firstPressed_is_Some _ _ _ Hp Hheld) as (key & cmd & Hf).
    destruct (firstPressed_Some _ _ _ _ Hf) as [Hin Hk].
    exists key, cmd. split; [exact Hf|]. split; [exact Hk|].
    split; [exact (Permutation_in _ Hp Hin)|].
    rewrite Est. cbn [runState]. rewrite Hch, Hf. reflexivity.
  - intros pre key cmd post -> Hpre Hk. apply firstPressed_app; assumption.
  - intros Hone iter' fuel Hp'.
    destruct (key_has_command held_key) as [cmd Hin].
    assert (Hf : firstPressed iter' (input.KeyPressed env)
                 = firstPressed iter (input.KeyPressed env)).
    { rewrite (firstPressed_single iter' _ held_key cmd Hp' Hin Hheld Hone).
      rewrite (firstPressed_single iter _ held_key cmd Hp Hin Hheld Hone).
      reflexivity. }
    split; [exact Hf|]. apply runStates_iter_ext. exact Hf.
Qed.

(** C8: a frame of [drawTextAndCaret] on a widget whose content rectangle
    is not empty and whose caret has a non-negative width returns, and puts
    the caret at a screen X inside the content rectangle.  When the caret's
    right edge was beyond the rectangle and the caret fits into the content
    rectangle, the frame brings that edge, right padding included, exactly
    onto the right edge of the rectangle; so it does in the scenario of a
    rectangle 100 pixels wide, 5 pixels of padding and the caret at 200
    pixels. *)
Theorem scroll_keeps_caret_in_content (t : TextInput) :
  cursor_in_bytes t ->
  scene_in_pixels t ->
  0 <= Width (caret t) ->
  img.X (img.Min (contentRect t)) <= img.X (img.Max (contentRect t)) ->
  exists t',
    drawTextAndCaret t = Ok t'
    /\ Rect (widget t') = Rect (widget t) /\ padding t' = padding t
    /\ Width (caret t') = Width (caret t)
    /\ img.X (img.Min (caretRect (caret t')))
       = img.X (img.Min (contentRect t)) + scrollOffset t' + caretX t
    /\ img.X (img.Min (contentRect t))
       <= img.X (img.Min (caretRect (caret t')))
       <= img.X (img.Max (contentRect t))
    /\ (img.X (img.Max (Rect (widget t)))
        < img.X (img.Min (contentRect t)) + scrollOffset t + caretX t
          + Width (caret t) + Right (padding t) ->
        Left (padding t) + Width (caret t) + Right (padding t)
        <= img.Dx (Rect (widget t)) ->
        img.X (img.Min (caretRect (caret t'))) + Width (caret t') + Right (padding t')
        = img.X (img.Max (Rect (widget t'))))
    /\ (img.Dx (Rect (widget t)) = 100 ->
        Left (padding t) = 5 -> Right (padding t) = 5 ->
        caretX t = 200 -> scrollOffset t = 0 -> Width (caret t) <= 90 ->
        img.X (img.Min (caretRect (caret t'))) + Width (caret t') + Right (padding t')
        = img.X (img.Max (Rect (widget t')))).
Proof.
  intros Hc (Hx0 & Hx1 & Hl & Hr & Hs & Hcx & Hw) Hw0 Hne.
  unfold cursor_in_bytes in Hc. unfold contentRect, Insets_Apply in *.
  unfold img.Dx, caretX in *.
  unfold drawTextAndCaret. rewrite slice_to_ok by exact Hc. cbn [bind].
  set (cx := fontAdvance (firstn (Z.to_nat (cursorPosition t)) (InputText t)) (face t)) in *.
  cbn [img.Add img.Min img.Max img.X img.Point_Add img.Point_Sub] in *.
  set (x0 := img.X (img.Min (Rect (widget t)))) in *.
  set (x1 := img.X (img.Max (Rect (widget t)))) in *.
  set (pl := Left (padding t)) in *. set (pr := Right (padding t)) in *.
  set (so := scrollOffset t) in *. set (cw := Width (caret t)) in *.
  no_wrap.
  destruct (x0 + pl + so + cx + cw + pr - x1 >? 0) eqn:E1; bool_hyps;
    cbn [scrollOffset set_scrollOffset padding]; fold so; fold pl; no_wrap;
    match goal with
    | |- context [?d <? 0] => destruct (d <? 0) eqn:E2
    end; bool_hyps;
    cbn [scrollOffset set_scrollOffset set_text set_caret caret widget padding
         Caret_SetLocation caretRect Width img.Add img.Min img.Max img.X
         img.Point_Add];
    fold so; fold x0; fold x1; fold pl; fold pr; fold cw; no_wrap;
    eexists; (split; [reflexivity|]);
    cbn [scrollOffset set_scrollOffset set_text set_caret caret widget padding
         Caret_SetLocation caretRect Width img.Add img.Min img.Max img.X
         img.Point_Add];
    fold so; fold x0; fold x1; fold pl; fold pr; fold cw; no_wrap;
    repeat split; try reflexivity; try lia.
Qed.

(** The scenario evaluated: the frame scrolls by -112 and puts the caret at
    x = 93, so that caret, its 2 pixels and the 5 pixels of padding end at
    100. *)
Lemma scroll_scenario_values :
  exists t',
    drawTextAndCaret scrollScene = Ok t'
    /\ scrollOffset t' = -112
    /\ img.X (img.Min (caretRect (caret t'))) = 93.
Proof.
  eexists. split; [vm_compute; reflexivity|]. split; reflexivity.
Qed.

(** * Further properties of the code *)

(** X1: on text in which every code point is one byte, with advance widths
    that do not decrease and values far from overflow, [fontStringIndex]
    returns an index of the text whose boundary is nearest to the offset;
    of two boundaries equally near on either side of the offset it returns
    the smaller. *)
Theorem fontStringIndex_nearest_boundary (s : gostring) (f : Face) (x : Z) :
  single_byte s ->
  len s <= GoInt.max_int ->
  nondecreasing s f ->
  advances_small s f ->
  small x ->
  exists i,
    fontStringIndex s f x = Ok i
    /\ 0 <= i <= UTF8.RuneCount s
    /\ (forall j, 0 <= j <= UTF8.RuneCount s -> distance s f x i <= distance s f x j)
    /\ (forall j, 0 <= j <= UTF8.RuneCount s ->
                  distance s f x i = distance s f x j ->
                  prefixAdvance s f i <> prefixAdvance s f j -> i <= j).
Proof.
  intros Hsb Hl Hm Ha Hx. exact (fontStringIndex_nearest s f x Hsb Hl Hm Ha Hx).
Qed.

(** X2: for every text, face and offset the search of [fontStringIndex]
    comes to an end within [len(s) + 1] turns, and an index it returns lies
    in [0, len(s)], the length in bytes; on the empty text it returns 0
    whatever the offset. *)
Theorem fontStringIndex_ends_within_bytes (s : gostring) (f : Face) (x : Z) :
  len s <= GoInt.max_int ->
  fontStringIndex s f x <> OutOfFuel
  /\ (forall i, fontStringIndex s f x = Ok i -> 0 <= i <= len s)
  /\ fontStringIndex [] f x = Ok 0.
Proof.
  intros Hl. pose proof (fontStringIndex_bounds s f x Hl) as H.
  split; [|split].
  - intros E. rewrite E in H. exact H.
  - intros i E. rewrite E in H. exact H.
  - unfold fontStringIndex, fontStringIndex_with. cbn [length fontStringIndex_loop].
    change (len (@nil byte)) with 0.
    change (0 +! GoInt.quo (0 -! 0) 2) with 0.
    change (runes_to rt (UTF8.runes []) 0) with (@Ok (list rune) []).
    cbn [bind].
    destruct (x -! fontAdvance (UTF8.string_of []) f =? 0); [reflexivity|].
    destruct (x -! fontAdvance (UTF8.string_of []) f >? 0); reflexivity.
Qed.

(** X3: [removeChar] works on code points whatever the text: inside the
    text it removes exactly the code point at [pos] and keeps the others in
    order; at a position that is not the index of a code point it panics. *)
Theorem removeChar_removes_one_code_point (s : gostring) (pos : Z) :
  len s < GoInt.max_int ->
  (0 <= pos < UTF8.RuneCount s ->
   exists s',
     removeChar s pos = Ok s'
     /\ UTF8.runes s'
        = firstn (Z.to_nat pos) (UTF8.runes s)
          ++ skipn (Z.to_nat (pos + 1)) (UTF8.runes s)
     /\ UTF8.RuneCount s' = UTF8.RuneCount s - 1)
  /\ (pos < 0 \/ UTF8.RuneCount s <= pos -> removeChar s pos = Panic).
Proof.
  intros Hl. pose proof (RuneCount_le_len s) as Hr.
  split.
  - intros Hp. eexists. split; [apply removeChar_ok; assumption|].
    pose proof (removeChar_runes s _ pos Hp Hl (removeChar_ok s pos Hp Hl)) as Hrunes.
    split; [exact Hrunes|].
    unfold UTF8.RuneCount, len in *. rewrite Hrunes, length_app, length_firstn, length_skipn.
    lia.
  - intros Hp. exact (removeChar_outside s pos Hl Hp).
Qed.

(** X4: where the text before the cursor is single-byte, [insertChar]
    splices at the code-point position: its result is the insert of the
    specification, and decodes to the code points before the cursor, the
    typed one (U+FFFD if it is no valid code point) and the code points
    behind the cursor. *)
Theorem insertChar_splices_behind_single_byte_prefix
    (s : gostring) (r : rune) (pos : Z) :
  0 <= pos <= len s ->
  Forall ascii (firstn (Z.to_nat pos) s) ->
  insertChar s r pos = Ok (insert_spec s pos r)
  /\ UTF8.runes (insert_spec s pos r)
     = firstn (Z.to_nat pos) (UTF8.runes s)
       ++ [UTF8.sanitize r]
       ++ skipn (Z.to_nat pos) (UTF8.runes s).
Proof.
  intros Hp Ha. split; [apply insertChar_ascii_prefix; assumption|].
  unfold insert_spec. rewrite runes_string_of, !map_app.
  rewrite map_sanitize_firstn, map_sanitize_skipn.
  reflexivity.
Qed.

(** X5: typing a character and pressing Backspace gives the text and the
    cursor back, on well-formed UTF-8 text whose part before the cursor is
    single-byte, when no validator is set or the validator accepts the
    candidate. *)
Theorem insert_then_backspace_restores (t : TextInput) (c : rune) :
  cursor_in_bytes t ->
  Forall ascii (firstn (Z.to_nat (cursorPosition t)) (InputText t)) ->
  valid_utf8 (InputText t) ->
  len (InputText t) + 4 < GoInt.max_int ->
  (forall valid, validationFunc t = Some valid ->
                 valid (insert_spec (InputText t) (cursorPosition t) c) = true) ->
  (t1 <- doInsert c t ;; doBackspace t1) = Ok (ResetBlinking t).
Proof.
  intros Hc Ha Hv Hl Hacc. unfold cursor_in_bytes in Hc.
  pose proof (insertChar_ascii_prefix (InputText t) c (cursorPosition t) Hc Ha) as Hins.
  pose proof (insert_spec_runes (InputText t) (cursorPosition t) c) as Hrunes.
  pose proof (ascii_prefix_RuneCount (InputText t) (cursorPosition t) Hc Ha) as Hpre.
  unfold UTF8.RuneCount in Hpre.
  set (s1 := insert_spec (InputText t) (cursorPosition t) c) in *.
  assert (Hadd : cursorPosition t +! 1 = cursorPosition t + 1)
    by (apply add_small; int_range).
  assert (Hdo : doInsert c t
                = Ok (set_cursorPosition (cursorPosition t + 1) (set_InputText s1 t))).
  { unfold doInsert. rewrite Hins. cbn [bind]. rewrite Hadd.
    destruct (validationFunc t) as [v|] eqn:Ev; [|reflexivity].
    rewrite (Hacc v eq_refl). reflexivity. }
  rewrite Hdo. cbn [bind]. unfold doBackspace.
  cbn [cursorPosition InputText set_cursorPosition set_InputText].
  destruct (cursorPosition t + 1 >? 0) eqn:E; [|rewrite Z.gtb_ltb in E; apply Z.ltb_ge in E; lia].
  rewrite sub_small by int_range.
  replace (cursorPosition t + 1 - 1) with (cursorPosition t) by lia.
  assert (Hlen1 : length (firstn (Z.to_nat (cursorPosition t)) (UTF8.runes (InputText t)))
                  = Z.to_nat (cursorPosition t)).
  { rewrite length_firstn. unfold len in Hpre. lia. }
  assert (Hrm : removeChar s1 (cursorPosition t) = Ok (InputText t)).
  { unfold removeChar.
    assert (Hcount : len (UTF8.runes s1) = len (UTF8.runes (InputText t)) + 1).
    { unfold len. rewrite Hrunes, !length_app. cbn [length].
      rewrite length_firstn, length_skipn. lia. }
    rewrite runes_to_ok by (unfold len in *; lia).
    pose proof (RuneCount_le_len (InputText t)) as Hrl.
    unfold UTF8.RuneCount in Hrl.
    rewrite add_small by int_range.
    rewrite slice_from_ok by (unfold len in *; lia).
    cbn [bind]. rewrite Hrunes.
    rewrite firstn_app, Hlen1, Nat.sub_diag, firstn_O, app_nil_r.
    rewrite firstn_all2 by lia.
    replace (Z.to_nat (cursorPosition t + 1)) with (Z.to_nat (cursorPosition t) + 1)%nat by lia.
    rewrite skipn_app, Hlen1.
    rewrite skipn_all2 by lia.
    replace (Z.to_nat (cursorPosition t) + 1 - Z.to_nat (cursorPosition t))%nat with 1%nat by lia.
    cbn [app skipn].
    rewrite <- string_of_app, firstn_skipn. unfold valid_utf8 in Hv. rewrite Hv. reflexivity. }
  rewrite Hrm. cbn [bind]. rewrite restore_text_and_cursor. reflexivity.
Qed.

(** X6: with the cursor at or behind the last code point but before the last
    byte, as the byte-length bounds of the commands allow on text with
    multi-byte code points, Delete panics; and Backspace panics once the
    cursor is beyond the code points. *)
Theorem delete_behind_code_points_panics (t : TextInput) :
  len (InputText t) < GoInt.max_int ->
  (UTF8.RuneCount (InputText t) <= cursorPosition t < len (InputText t) ->
   doDelete t = Panic)
  /\ (UTF8.RuneCount (InputText t) < cursorPosition t <= len (InputText t) ->
      doBackspace t = Panic).
Proof.
  intros Hl. pose proof (RuneCount_le_len (InputText t)) as Hr.
  pose proof (removeChar_outside (InputText t)) as Hrm.
  assert (H0 : 0 <= UTF8.RuneCount (InputText t))
    by (unfold UTF8.RuneCount, len; lia).
  split; intros Hc.
  - unfold doDelete.
    destruct (cursorPosition t <? len (InputText t)) eqn:E;
      [|apply Z.ltb_ge in E; lia].
    rewrite Hrm by (try exact Hl; right; lia). reflexivity.
  - unfold doBackspace.
    destruct (cursorPosition t >? 0) eqn:E;
      [|rewrite Z.gtb_ltb in E; apply Z.ltb_ge in E; lia].
    rewrite sub_small by int_range.
    rewrite Hrm by (try exact Hl; right; lia). reflexivity.
Qed.


(** X8: a disabled widget drops a typed character: the frame ends idle with
    text and cursor as they were, only the caret's blinking reset.  Nothing
    else is gated: on the same disabled widget a held command key still runs
    its command. *)
Theorem disabled_widget_drops_typed_characters
    (env : input.Sample) (iter : list (ebiten.Key * textInputControlCommand))
    (t : TextInput) (b : bool) :
  state t = idleState b ->
  Disabled (widget t) = true ->
  (forall c cs fuel,
      input.InputChars env = c :: cs ->
      runStates (2 + fuel) env iter t
      = Ok (set_state (idleState true) (ResetBlinking t), []))
  /\ (forall key cmd t1 fuel,
        input.InputChars env = [] ->
        firstPressed iter (input.KeyPressed env) = Some (key, cmd) ->
        commandToFunc cmd t = Ok t1 ->
        eventsOf (runStates (2 + fuel) env iter t) = Ok [Executed cmd]
        /\ widgetOf (runStates (2 + fuel) env iter t)
           = Ok (set_state (commandState cmd key
                              (if b then repeatDelay t else repeatInterval t)
                              (Some (input.now env
                                     + (if b then repeatDelay t else repeatInterval t))))
                           t1)).
Proof.
  intros Est Hdis. split.
  - intros c cs fuel Hch. change (2 + fuel)%nat with (S (S fuel)).
    rewrite runStates_S, Est. cbn [runState]. rewrite Hch. cbn [bind].
    rewrite runStates_S. cbn [state set_state runState widget].
    rewrite Hdis. reflexivity.
  - intros key cmd t1 fuel Hch Hf Hc. change (2 + fuel)%nat with (S (S fuel)).
    rewrite (runStates_idle_command fuel env iter t b cmd key t1 Est Hch Hf Hc).
    split; reflexivity.
Qed.

(** X9: the order of precedence within a frame that starts idle.  A typed
    character wins over held keys and a click: only the first typed
    character is inserted and no command runs.  Without a typed character a
    held control key wins over a click.  Only with neither is a click
    taken. *)
Theorem idle_frame_precedence
    (env : input.Sample) (iter : list (ebiten.Key * textInputControlCommand))
    (t : TextInput) (b : bool) :
  state t = idleState b ->
  (forall c cs t1 fuel,
      input.InputChars env = c :: cs ->
      Disabled (widget t) = false ->
      doInsert c t = Ok t1 ->
      runStates (2 + fuel) env iter t
      = Ok (set_state (idleState true) (ResetBlinking t1), [Inserted c]))
  /\ (forall key cmd t1 fuel,
        input.InputChars env = [] ->
        firstPressed iter (input.KeyPressed env) = Some (key, cmd) ->
        commandToFunc cmd t = Ok t1 ->
        eventsOf (runStates (2 + fuel) env iter t) = Ok [Executed cmd])
  /\ (forall x y t1 fuel,
        input.InputChars env = [] ->
        firstPressed iter (input.KeyPressed env) = None ->
        input.MouseButtonJustPressedLayer env = true ->
        input.CursorPosition env = (x, y) ->
        doGoXY x y t = Ok t1 ->
        runStates (1 + fuel) env iter t
        = Ok (set_state (idleState true) t1, [Clicked x y]))
  /\ (forall fuel,
        input.InputChars env = [] ->
        firstPressed iter (input.KeyPressed env) = None ->
        input.MouseButtonJustPressedLayer env = false ->
        runStates (1 + fuel) env iter t = Ok (set_state (idleState true) t, [])).
Proof.
  intros Est. split; [|split; [|split]].
  - intros c cs t1 fuel Hch Hdis Hins. change (2 + fuel)%nat with (S (S fuel)).
    rewrite runStates_S, Est. cbn [runState]. rewrite Hch. cbn [bind].
    rewrite runStates_S. cbn [state set_state runState widget].
    rewrite Hdis. cbn [negb].
    change (doInsert c _) with (doInsert c (set_state (charInputState c) t)).
    rewrite doInsert_set_state, Hins. reflexivity.
  - intros key cmd t1 fuel Hch Hf Hc. change (2 + fuel)%nat with (S (S fuel)).
    rewrite (runStates_idle_command fuel env iter t b cmd key t1 Est Hch Hf Hc).
    reflexivity.
  - intros x y t1 fuel Hch Hf Hm Hxy Hgo. change (1 + fuel)%nat with (S fuel).
    rewrite runStates_S, Est. cbn [runState]. rewrite Hch, Hf, Hm, Hxy, Hgo.
    reflexivity.
  - intros fuel Hch Hf Hm. change (1 + fuel)%nat with (S fuel).
    rewrite runStates_S, Est. cbn [runState]. rewrite Hch, Hf, Hm. reflexivity.
Qed.

(** X10: a click outside the widget's rectangle changes nothing.  A click
    inside it is first clamped to the padded content rectangle, so a click
    in the padding acts as a click on the nearest edge of the content; it
    only ever moves the cursor, to an index in [0, len(InputText)], and
    leaves text and scroll offset alone. *)
Theorem click_is_clamped_to_content (x y : Z) (t : TextInput) :
  len (InputText t) <= GoInt.max_int ->
  (img.In {| img.X := x; img.Y := y |} (Rect (widget t)) = false ->
   doGoXY x y t = Ok t)
  /\ (img.In {| img.X := x; img.Y := y |} (Rect (widget t)) = true ->
      img.In {| img.X := clampToContent t x; img.Y := y |} (Rect (widget t)) = true ->
      doGoXY x y t = doGoXY (clampToContent t x) y t)
  /\ (forall t', doGoXY x y t = Ok t' ->
        InputText t' = InputText t
        /\ scrollOffset t' = scrollOffset t
        /\ (cursorPosition t' = cursorPosition t
            \/ 0 <= cursorPosition t' <= len (InputText t))).
Proof.
  intros Hl. split; [|split].
  - intros Hout. unfold doGoXY. rewrite Hout. reflexivity.
  - intros Hin Hin'. rewrite (doGoXY_inside _ _ _ Hin), (doGoXY_inside _ _ _ Hin').
    rewrite clampToContent_idem. reflexivity.
  - intros t' H. pose proof (doGoXY_bounds x y t Hl) as Hb.
    rewrite H in Hb. destruct Hb as [Ht Hc]. split; [exact Ht|]. split; [|exact Hc].
    unfold doGoXY in H. destruct (img.In _ _); [|apply Ok_inj in H; subst; reflexivity].
    destruct (fontStringIndex _ _ _); cbn [bind] in H; try discriminate.
    apply Ok_inj in H. subst t'. reflexivity.
Qed.

(** X11: the scroll correction of [drawTextAndCaret] settles in one frame:
    a second frame over the same text and cursor leaves the scroll offset of
    the first.  A frame whose caret is already inside the content rectangle,
    right padding included, does not scroll at all. *)
Theorem scroll_settles_in_one_frame (t : TextInput) :
  cursor_in_bytes t ->
  scene_in_pixels t ->
  exists t1 t2,
    drawTextAndCaret t = Ok t1
    /\ drawTextAndCaret t1 = Ok t2
    /\ scrollOffset t2 = scrollOffset t1
    /\ (0 <= scrollOffset t + caretX t ->
        img.X (img.Min (Rect (widget t))) + Left (padding t) + scrollOffset t
        + caretX t + Width (caret t) + Right (padding t)
        <= img.X (img.Max (Rect (widget t))) ->
        scrollOffset t1 = scrollOffset t).
Proof.
  intros Hc Hs.
  assert (Hs' : scene_in_pixels_scrolled t).
  { destruct Hs as (Hx0 & Hx1 & Hl & Hr & Hso & Hcx & Hw).
    unfold scene_in_pixels_scrolled, pixels in *. lia. }
  destruct (drawTextAndCaret_scrollAfter t Hc Hs')
    as (t1 & Hd1 & Hso1 & Ht1 & Hc1 & Hf1 & Hp1 & Hw1 & Hcw1).
  assert (Hcx1 : caretX t1 = caretX t) by (unfold caretX; rewrite Ht1, Hc1, Hf1; reflexivity).
  assert (Hcb1 : cursor_in_bytes t1) by (unfold cursor_in_bytes; rewrite Ht1, Hc1; exact Hc).
  assert (Hs1 : scene_in_pixels_scrolled t1).
  { destruct Hs' as (Hx0 & Hx1 & Hl & Hr & Hso & Hcx & Hw).
    pose proof (scrollAfter_range _ _ _ _ _ _ _ Hx0 Hx1 Hl Hr Hw Hcx Hso) as Hrange.
    unfold scene_in_pixels_scrolled. rewrite Hw1, Hp1, Hcx1, Hcw1, Hso1.
    repeat (split; [assumption|]). exact Hw. }
  destruct (drawTextAndCaret_scrollAfter t1 Hcb1 Hs1)
    as (t2 & Hd2 & Hso2 & _).
  exists t1, t2. split; [exact Hd1|]. split; [exact Hd2|]. split.
  - rewrite Hso2, Hw1, Hp1, Hcx1, Hcw1, Hso1. apply scrollAfter_stable.
  - intros Hleft Hright. rewrite Hso1. unfold scrollAfter.
    destruct (_ >? 0) eqn:E1;
      [rewrite Z.gtb_ltb in E1; apply Z.ltb_lt in E1; lia|].
    destruct (_ <? 0) eqn:E2; [apply Z.ltb_lt in E2; lia|reflexivity].
Qed.

(** X12: the fill layout places a widget only when it is dirty.  A layout
    that is clean, as a new one is under every option, leaves the widgets
    where they are whatever rectangle it is given.  After [MarkDirty] one
    [Layout] puts the first widget on the rectangle shrunk by the padding,
    touches no other widget and leaves the layout clean, so that a further
    [Layout], even with another rectangle, changes nothing; the dirty flag
    is cleared for an empty list of widgets too.  The preferred size looks
    at the first widget only. *)
Theorem fillLayout_places_first_widget_when_dirty
    (p : Insets) (d : bool) (opts : list FillLayout.FillLayoutOpt)
    (w : FillLayout.PreferredSizeLocateableWidget)
    (rest : list FillLayout.PreferredSizeLocateableWidget)
    (r r' : img.Rectangle) (Dx Dy : Insets -> Z) :
  let f := {| FillLayout.padding := p; FillLayout.dirty := d |} in
  let clean := {| FillLayout.padding := p; FillLayout.dirty := false |} in
  FillLayout.Layout clean (w :: rest) r = (clean, w :: rest)
  /\ FillLayout.Layout (FillLayout.NewFillLayout opts) (w :: rest) r
     = (FillLayout.NewFillLayout opts, w :: rest)
  /\ FillLayout.Layout (FillLayout.MarkDirty f) (w :: rest) r
     = (clean, FillLayout.SetLocation (Insets_Apply p r) w :: rest)
  /\ FillLayout.Layout (FillLayout.MarkDirty f) [] r = (clean, [])
  /\ (let '(f1, ws1) := FillLayout.Layout (FillLayout.MarkDirty f) (w :: rest) r in
      FillLayout.Layout f1 ws1 r' = (f1, ws1))
  /\ FillLayout.PreferredSize Dx Dy f (w :: rest)
     = FillLayout.PreferredSize Dx Dy f [w].
Proof.
  cbn zeta. split; [reflexivity|]. split.
  - unfold FillLayout.Layout. rewrite NewFillLayout_clean. reflexivity.
  - repeat split; reflexivity.
Qed.


(** X13: the edits keep the cursor within the code points of the text:
    from a cursor in [0, number of code points], an insert (committed or
    rejected), a Backspace, a Delete, Left and Home that return leave it in
    that range of the new text.  (Right, End, a click and the clamp of
    [Render] bound it by the byte length instead.) *)
Theorem edits_keep_cursor_in_code_points (t t' : TextInput) (c : rune) :
  cursor_in_code_points t ->
  len (InputText t) < GoInt.max_int ->
  (doInsert c t = Ok t' -> cursor_in_code_points t')
  /\ (doBackspace t = Ok t' -> cursor_in_code_points t')
  /\ (doDelete t = Ok t' -> cursor_in_code_points t')
  /\ (doGoLeft t = Ok t' -> cursor_in_code_points t')
  /\ (doGoStart t = Ok t' -> cursor_in_code_points t').
Proof.
  unfold cursor_in_code_points. intros Hc Hl.
  pose proof (RuneCount_le_len (InputText t)) as Hr.
  split; [|split; [|split; [|split]]].
  - unfold doInsert. intros H.
    destruct (insertChar (InputText t) c (cursorPosition t)) as [s| |] eqn:E;
      cbn [bind] in H; try discriminate.
    pose proof (insertChar_RuneCount _ _ _ _ E) as Hs.
    assert (Hadd : cursorPosition t +! 1 = cursorPosition t + 1)
      by (apply add_small; int_range).
    destruct (validationFunc t) as [v|]; [destruct (negb (v s))|];
      apply Ok_inj in H; subst t';
      cbn [cursorPosition InputText set_cursorPosition set_InputText];
      rewrite ?Hadd; lia.
  - unfold doBackspace. intros H.
    destruct (cursorPosition t >? 0) eqn:E0; cbn [bind] in H.
    + rewrite sub_small in H by int_range.
      destruct (removeChar (InputText t) (cursorPosition t - 1)) as [s| |] eqn:E;
        cbn [bind] in H; try discriminate.
      pose proof (removeChar_RuneCount _ _ _ Hl E) as Hs.
      apply Ok_inj in H; subst t'.
      cbn [cursorPosition InputText ResetBlinking set_caret set_cursorPosition
           set_InputText].
      rewrite Z.gtb_ltb in E0. apply Z.ltb_lt in E0. lia.
    + apply Ok_inj in H; subst t'.
      cbn [cursorPosition InputText ResetBlinking set_caret]. lia.
  - unfold doDelete. intros H.
    destruct (cursorPosition t <? len (InputText t)) eqn:E0; cbn [bind] in H.
    + destruct (removeChar (InputText t) (cursorPosition t)) as [s| |] eqn:E;
        cbn [bind] in H; try discriminate.
      pose proof (removeChar_RuneCount _ _ _ Hl E) as Hs.
      pose proof (removeChar_inv _ _ _ Hl E) as Hp.
      apply Ok_inj in H; subst t'.
      cbn [cursorPosition InputText ResetBlinking set_caret set_InputText]. lia.
    + apply Ok_inj in H; subst t'.
      cbn [cursorPosition InputText ResetBlinking set_caret]. lia.
  - unfold doGoLeft. intros H. apply Ok_inj in H; subst t'.
    destruct (cursorPosition t >? 0) eqn:E0;
      cbn [cursorPosition InputText ResetBlinking set_caret set_cursorPosition].
    + rewrite sub_small by int_range.
      rewrite Z.gtb_ltb in E0. apply Z.ltb_lt in E0. lia.
    + lia.
  - unfold doGoStart. intros H. apply Ok_inj in H; subst t'.
    cbn [cursorPosition InputText ResetBlinking set_caret set_cursorPosition]. lia.
Qed.

(** X14: the rerun loop of [Render], which the source leaves unbounded,
    ends after at most three calls of the state: with any larger budget the
    frame gives the same result, edits included, as with three. *)
Theorem Render_needs_three_state_calls
    (fuel : nat) (env : input.Sample)
    (iter : list (ebiten.Key * textInputControlCommand)) (t : TextInput) :
  len (InputText t) <= GoInt.max_int ->
  Render_with (3 + fuel) env iter t = Render env iter t
  /\ Render env iter t <> OutOfFuel.
Proof.
  intros Hl.
  assert (Hc : len (InputText (clampCursor t)) <= GoInt.max_int).
  { unfold clampCursor. destruct (_ >? _); exact Hl. }
  pose proof (runStates_frame 0 env iter (clampCursor t) Hc) as H.
  assert (Hne : runStates 3 env iter (clampCursor t) <> OutOfFuel).
  { intros E. rewrite E in H. exact H. }
  split.
  - unfold Render, Render_with.
    rewrite (runStates_fuel_mono 3 fuel env iter _ Hne). reflexivity.
  - unfold Render, Render_with.
    destruct (runStates 3 env iter (clampCursor t)) as [r| |]; cbn [bind];
      [|discriminate|destruct (Hne eq_refl)].
    unfold drawTextAndCaret.
    destruct (slice_to (InputText (fst r)) (cursorPosition (fst r))) eqn:Es;
      cbn [bind]; [discriminate|discriminate|destruct (slice_to_fuel _ _ Es)].
Qed.

(** X15: what [insertChar] returns on any text, at a position within the
    code points: the code points before the position, the typed one (U+FFFD
    if it is no valid code point), and then the text from byte [pos] on,
    decoded afresh.  The result has at least one code point and at least one
    byte more than the text. *)
Theorem insertChar_decodes_rest_from_byte_offset
    (s : gostring) (r : rune) (pos : Z) :
  0 <= pos <= UTF8.RuneCount s ->
  exists s',
    insertChar s r pos = Ok s'
    /\ UTF8.runes s'
       = firstn (Z.to_nat pos) (UTF8.runes s)
         ++ [UTF8.sanitize r]
         ++ UTF8.runes (skipn (Z.to_nat pos) s)
    /\ UTF8.RuneCount s + 1 <= UTF8.RuneCount s'
    /\ len s + 1 <= len s'.
Proof.
  intros Hp. pose proof (insertChar_ok s r pos Hp) as H.
  eexists. split; [exact H|].
  split; [|split].
  - rewrite runes_string_of_app, runes_app_EncodeRune,
      runes_string_of.
    rewrite map_sanitize_firstn.
    rewrite (map_sanitize_valid _ (runes_valid _)).
    reflexivity.
  - exact (insertChar_RuneCount _ _ _ _ H).
  - exact (insertChar_len _ _ _ _ H).
Qed.

End Runtime.

(** * Texts of at most 32 code points *)

(** With at most 32 code points the rune slice is the 32-rune buffer under
    every runtime, so the slice expressions, the insert and the search are
    those of [tightRuntime]. *)
Lemma runes_to_stack (rt : Runtime) (rs : list rune) (hi : Z) :
  (length rs <= 32)%nat -> runes_to rt rs hi = runes_to tightRuntime rs hi.
Proof.
  intros H. unfold runes_to.
  rewrite (runeCap_stack rt _ H), (runeCap_stack tightRuntime _ H). reflexivity.
Qed.

Lemma insertChar_stack (rt : Runtime) (s : gostring) (r : rune) (pos : Z) :
  (length (UTF8.runes s) <= 32)%nat ->
  insertChar rt s r pos = insertChar tightRuntime s r pos.
Proof.
  intros H. unfold insertChar. rewrite (runes_to_stack rt _ _ H). reflexivity.
Qed.

Lemma fontStringIndex_loop_stack (rt : Runtime) (s : gostring) (f : Face) (x : Z) :
  (length (UTF8.runes s) <= 32)%nat ->
  forall fuel start end_,
    fontStringIndex_loop rt fuel s f x start end_
    = fontStringIndex_loop tightRuntime fuel s f x start end_.
Proof.
  intros H. induction fuel as [|fuel IH]; intros start end_; [reflexivity|].
  cbn [fontStringIndex_loop]. rewrite (runes_to_stack rt _ _ H).
  destruct (runes_to tightRuntime _ _); cbn [bind]; try reflexivity.
  rewrite !IH. reflexivity.
Qed.

Lemma fontStringIndex_stack (rt : Runtime) (s : gostring) (f : Face) (x : Z) :
  (length (UTF8.runes s) <= 32)%nat ->
  fontStringIndex rt s f x = fontStringIndex tightRuntime s f x.
Proof.
  intros H. unfold fontStringIndex, fontStringIndex_with.
  rewrite (fontStringIndex_loop_stack rt _ _ _ H).
  destruct (fontStringIndex_loop tightRuntime _ _ _ _ _ _) as [[p|p]| |];
    cbn [bind]; try reflexivity.
  rewrite !(runes_to_stack rt _ _ H). reflexivity.
Qed.

(** C10, at inputs where the code leaves it; every glyph is 10 pixels wide.
    The search runs on [end = len(s)], the length in bytes.  On U+00E9, one
    code point in two bytes, with the offset 15 it is left at [p = 1] and the
    comparison that follows slices the one rune at [p + 1 = 2], beyond the
    code points: the slice is within the capacity, comes back padded with a
    zero rune, and the call returns 1.  On U+00E9 twenty times, twenty code
    points in forty bytes, with the offset 1000 the search goes on to
    [p = 20], [p = 30] and [p = 35], beyond the capacity of 32, and the call
    panics.  This holds under every runtime. *)
Theorem fontStringIndex_slices_past_code_points (rt : Runtime) :
  UTF8.RuneCount e_acute = 1
  /\ len e_acute = 2
  /\ fontStringIndex_loop rt 3 e_acute face10 15 0 (len e_acute) = Ok (Broke 1)
  /\ runes_to rt (UTF8.runes e_acute) (1 +! 1) = Ok [0xE9; 0]
  /\ fontStringIndex rt e_acute face10 15 = Ok 1
  /\ UTF8.RuneCount e_acute_x20 = 20
  /\ len e_acute_x20 = 40
  /\ runes_to rt (UTF8.runes e_acute_x20) 35 = Panic
  /\ fontStringIndex rt e_acute_x20 face10 1000 = Panic.
Proof.
  assert (H1 : (length (UTF8.runes e_acute) <= 32)%nat) by (vm_compute; lia).
  assert (H20 : (length (UTF8.runes e_acute_x20) <= 32)%nat) by (vm_compute; lia).
  rewrite (fontStringIndex_loop_stack rt _ _ _ H1), (runes_to_stack rt _ _ H1),
    (fontStringIndex_stack rt _ _ _ H1), (runes_to_stack rt _ _ H20),
    (fontStringIndex_stack rt _ _ _ H20).
  repeat split; vm_compute; reflexivity.
Qed.

(** C4, at an input where the code leaves it: the text is ["a"] and U+00E9,
    two code points in three bytes, with boundaries at 0, 10 and 20 pixels,
    every glyph 10 pixels wide.  For the offset 26 the nearest boundary is
    that of index 2, at 20 pixels.  The search runs on byte offsets and is
    left at [p = 2]; the comparison then measures the two runes sliced at 3,
    which come back padded with a zero rune and 30 pixels wide, nearer to 26
    than 20 is, and the call returns 3, no index of the text.  This holds
    under every runtime. *)
Theorem fontStringIndex_index_past_code_points (rt : Runtime) :
  UTF8.RuneCount text_a_e_acute = 2
  /\ nondecreasing text_a_e_acute face10
  /\ prefixAdvance text_a_e_acute face10 0 = 0
  /\ prefixAdvance text_a_e_acute face10 1 = 10
  /\ prefixAdvance text_a_e_acute face10 2 = 20
  /\ fontStringIndex_loop rt 4 text_a_e_acute face10 26 0 (len text_a_e_acute)
     = Ok (Broke 2)
  /\ runes_to rt (UTF8.runes text_a_e_acute) (2 +! 1) = Ok [0x61; 0xE9; 0]
  /\ fontStringIndex rt text_a_e_acute face10 26 = Ok 3
  /\ ~ (0 <= 3 <= UTF8.RuneCount text_a_e_acute)
  /\ (forall j, 0 <= j <= UTF8.RuneCount text_a_e_acute ->
                distance text_a_e_acute face10 26 2
                <= distance text_a_e_acute face10 26 j).
Proof.
  assert (H : (length (UTF8.runes text_a_e_acute) <= 32)%nat) by (vm_compute; lia).
  rewrite (fontStringIndex_loop_stack rt _ _ _ H), (runes_to_stack rt _ _ H),
    (fontStringIndex_stack rt _ _ _ H).
  split; [reflexivity|]. split.
  { intros i j Hij Hj. change (UTF8.RuneCount text_a_e_acute) with 2 in Hj.
    assert (Hi : i = 0 \/ i = 1 \/ i = 2) by lia.
    assert (Hj' : j = 0 \/ j = 1 \/ j = 2) by lia.
    destruct Hi as [-> | [-> | ->]]; destruct Hj' as [-> | [-> | ->]];
      try lia; vm_compute; discriminate. }
  do 6 (split; [vm_compute; reflexivity|]).
  change (UTF8.RuneCount text_a_e_acute) with 2.
  split; [lia|].
  intros j Hj.
  assert (Hj' : j = 0 \/ j = 1 \/ j = 2) by lia.
  destruct Hj' as [-> | [-> | ->]]; vm_compute; discriminate.
Qed.

(** * The claims that fail as stated *)

(** C5 as stated fails at the second click, under every runtime: x = 15 is
    as far from the boundary at 10 as from the boundary at 20, and the
    cursor goes to index 1. *)
Lemma click_at_15_is_not_index_2 :
  ~ (exists rt,
       cursorOf (doGoXY rt 5 5 clickScene) = Ok 0
       /\ cursorOf (doGoXY rt 15 5 clickScene) = Ok 2).
Proof.
  intros (rt & _ & H). vm_compute in H. discriminate H.
Qed.

(** C9 as stated fails, under every runtime: with Left and Right both held,
    a visit of the key map in source order runs the Left command and a visit
    in the reverse order runs the Right command, from the same widget and
    the same sample. *)
Lemma held_keys_winner_depends_on_visit_order :
  ~ (exists rt,
       forall env t iter1 iter2,
         Permutation iter1 textInputKeyToCommand ->
         Permutation iter2 textInputKeyToCommand ->
         eventsOf (Render rt env iter1 t) = eventsOf (Render rt env iter2 t)).
Proof.
  intros (rt & H).
  specialize (H (frame 0 [] (held2 ebiten.KeyLeft ebiten.KeyRight))
                (textInputWith text_ab 1) iterSource iterReversed
                (Permutation_refl _) (Permutation_sym (Permutation_rev _))).
  vm_compute in H. discriminate H.
Qed.

(** * The theorems at concrete inputs *)


Lemma key_repeat_timing_witness :
  runStates tightRuntime 3 (holdBackspace 0) iterSource hello_at_end
  = Ok (set_state (commandState textInputBackspace ebiten.KeyBackspace (ms 300)
                     (Some (ms 300))) hello_backspaced,
        [Executed textInputBackspace]).
Proof.
  refine (proj1 (key_repeat_timing tightRuntime (holdBackspace 0) iterSource hello_at_end
                   hello_backspaced ebiten.KeyBackspace textInputBackspace
                   _ _ _) _ 0%nat).
  - reflexivity.
  - reflexivity.
  - vm_compute. reflexivity.
  - reflexivity.
Defined.

Lemma release_goes_idle_without_repeat_witness :
  runStates tightRuntime 3 (frame (ms 500) [] noKeys) iterSource repeatingLeft
  = Ok (set_state (idleState true) repeatingLeft, []).
Proof.
  refine (proj2 (proj2 (proj2
            (release_goes_idle_without_repeat tightRuntime (frame (ms 500) [] noKeys) iterSource
               repeatingLeft textInputGoLeft ebiten.KeyLeft (ms 300) (Some 10)
               _ _ _ _ _))) _ _ _ 1%nat).
  - apply Permutation_refl.
  - cbn. left. reflexivity.
  - reflexivity.
  - reflexivity.
  - vm_compute. discriminate.
  - reflexivity.
  - intros k. reflexivity.
  - reflexivity.
Defined.

Lemma first_held_key_in_visit_order_wins_witness :
  firstPressed iterReversed (held ebiten.KeyLeft)
  = firstPressed iterSource (held ebiten.KeyLeft)
  /\ runStates tightRuntime 3 (frame 0 [] (held ebiten.KeyLeft)) iterReversed (textInputWith text_ab 1)
     = runStates tightRuntime 3 (frame 0 [] (held ebiten.KeyLeft)) iterSource (textInputWith text_ab 1).
Proof.
  refine (proj2 (proj2
            (first_held_key_in_visit_order_wins tightRuntime
               (frame 0 [] (held ebiten.KeyLeft)) iterSource
               (textInputWith text_ab 1) true ebiten.KeyLeft _ _ _ _))
            _ iterReversed 3%nat _).
  - apply Permutation_refl.
  - reflexivity.
  - reflexivity.
  - reflexivity.
  - intros k. destruct k; cbn; intros H; try reflexivity; discriminate H.
  - apply Permutation_sym, Permutation_rev.
Defined.

Lemma scroll_keeps_caret_in_content_witness :
  exists t',
    drawTextAndCaret scrollScene = Ok t'
    /\ img.X (img.Min (caretRect (caret t'))) + Width (caret t') + Right (padding t')
       = img.X (img.Max (Rect (widget t'))).
Proof.
  destruct (scroll_keeps_caret_in_content scrollScene)
    as (t' & Hd & _ & _ & _ & _ & _ & _ & Hscenario).
  - vm_compute. split; discriminate.
  - vm_compute. repeat split; discriminate.
  - vm_compute. discriminate.
  - vm_compute. discriminate.
  - exists t'. split; [exact Hd|].
    apply Hscenario; try reflexivity. vm_compute. discriminate.
Defined.

Lemma fontStringIndex_nearest_boundary_witness :
  exists i,
    fontStringIndex tightRuntime text_ab face_ab 15 = Ok i
    /\ 0 <= i <= UTF8.RuneCount text_ab
    /\ (forall j, 0 <= j <= UTF8.RuneCount text_ab ->
                  distance text_ab face_ab 15 i <= distance text_ab face_ab 15 j)
    /\ (forall j, 0 <= j <= UTF8.RuneCount text_ab ->
                  distance text_ab face_ab 15 i = distance text_ab face_ab 15 j ->
                  prefixAdvance text_ab face_ab i <> prefixAdvance text_ab face_ab j ->
                  i <= j).
Proof.
  apply (fontStringIndex_nearest_boundary tightRuntime).
  - reflexivity.
  - vm_compute. discriminate.
  - intros i j Hij Hj. change (UTF8.RuneCount text_ab) with 2 in Hj.
    assert (Hi : i = 0 \/ i = 1 \/ i = 2) by lia.
    assert (Hj' : j = 0 \/ j = 1 \/ j = 2) by lia.
    destruct Hi as [-> | [-> | ->]]; destruct Hj' as [-> | [-> | ->]];
      try lia; vm_compute; discriminate.
  - intros i Hi. change (UTF8.RuneCount text_ab) with 2 in Hi.
    assert (Hi' : i = 0 \/ i = 1 \/ i = 2) by lia.
    destruct Hi' as [-> | [-> | ->]]; vm_compute; split; discriminate.
  - vm_compute. split; discriminate.
Defined.

Lemma fontStringIndex_ends_within_bytes_witness :
  (fontStringIndex tightRuntime text_a_e_acute face10 26 <> OutOfFuel
   /\ (forall i, fontStringIndex tightRuntime text_a_e_acute face10 26 = Ok i ->
                 0 <= i <= len text_a_e_acute)
   /\ fontStringIndex tightRuntime [] face10 26 = Ok 0)
  /\ fontStringIndex tightRuntime text_a_e_acute face10 26 = Ok 3
  /\ len text_a_e_acute = 3.
Proof.
  split.
  - apply (fontStringIndex_ends_within_bytes tightRuntime). vm_compute. discriminate.
  - split; vm_compute; reflexivity.
Defined.

Lemma removeChar_removes_one_code_point_witness :
  (exists s',
     removeChar tightRuntime text_a_e_acute 1 = Ok s'
     /\ UTF8.runes s'
        = firstn (Z.to_nat 1) (UTF8.runes text_a_e_acute)
          ++ skipn (Z.to_nat (1 + 1)) (UTF8.runes text_a_e_acute)
     /\ UTF8.RuneCount s' = UTF8.RuneCount text_a_e_acute - 1)
  /\ removeChar tightRuntime text_a_e_acute 2 = Panic.
Proof.
  destruct (removeChar_removes_one_code_point tightRuntime text_a_e_acute 1) as [H1 _];
    [vm_compute; reflexivity|].
  destruct (removeChar_removes_one_code_point tightRuntime text_a_e_acute 2) as [_ H2];
    [vm_compute; reflexivity|].
  split.
  - apply H1. vm_compute. split; [discriminate|reflexivity].
  - apply H2. right. vm_compute. discriminate.
Defined.

Lemma insertChar_splices_behind_single_byte_prefix_witness :
  insertChar tightRuntime text_a_e_acute 0x78 1 = Ok (insert_spec text_a_e_acute 1 0x78)
  /\ UTF8.runes (insert_spec text_a_e_acute 1 0x78)
     = firstn (Z.to_nat 1) (UTF8.runes text_a_e_acute)
       ++ [UTF8.sanitize 0x78]
       ++ skipn (Z.to_nat 1) (UTF8.runes text_a_e_acute).
Proof.
  apply (insertChar_splices_behind_single_byte_prefix tightRuntime).
  - vm_compute. split; discriminate.
  - repeat constructor.
Defined.

Lemma insert_then_backspace_restores_witness :
  (t1 <- doInsert tightRuntime 0x78 (textInputWith text_a_e_acute 1) ;; doBackspace tightRuntime t1)
  = Ok (ResetBlinking (textInputWith text_a_e_acute 1)).
Proof.
  apply (insert_then_backspace_restores tightRuntime).
  - vm_compute. split; discriminate.
  - repeat constructor.
  - reflexivity.
  - vm_compute. reflexivity.
  - intros valid H. discriminate H.
Defined.

Lemma delete_behind_code_points_panics_witness :
  doDelete tightRuntime (textInputWith e_acute 1) = Panic
  /\ doBackspace tightRuntime (textInputWith e_acute 2) = Panic.
Proof.
  destruct (delete_behind_code_points_panics tightRuntime (textInputWith e_acute 1)) as [H1 _];
    [vm_compute; reflexivity|].
  destruct (delete_behind_code_points_panics tightRuntime (textInputWith e_acute 2)) as [_ H2];
    [vm_compute; reflexivity|].
  split.
  - apply H1. vm_compute. split; [discriminate|reflexivity].
  - apply H2. vm_compute. split; [reflexivity|discriminate].
Defined.


Lemma disabled_widget_drops_typed_characters_witness :
  runStates tightRuntime 2 (frame 0 [0x78] noKeys) iterSource
            (NewTextInput [WidgetOpts (fun w => {| Rect := Rect w; Disabled := true |})])
  = Ok (set_state (idleState true)
          (ResetBlinking
             (NewTextInput [WidgetOpts (fun w => {| Rect := Rect w; Disabled := true |})])),
        []).
Proof.
  refine (proj1 (disabled_widget_drops_typed_characters tightRuntime
                   (frame 0 [0x78] noKeys) iterSource
                   (NewTextInput [WidgetOpts (fun w => {| Rect := Rect w; Disabled := true |})])
                   true _ _) 0x78 [] 0%nat _).
  - reflexivity.
  - reflexivity.
  - reflexivity.
Defined.

Lemma idle_frame_precedence_witness :
  runStates tightRuntime 2 {| input.now := 0; input.InputChars := [0x78; 0x79];
                 input.KeyPressed := held ebiten.KeyBackspace;
                 input.MouseButtonJustPressedLayer := true;
                 input.CursorPosition := (5, 5) |}
            iterSource hello_at_end
  = Ok (set_state (idleState true)
          (ResetBlinking
             (set_cursorPosition 6
                (set_InputText [x68; x65; x6c; x6c; x6f; x78] hello_at_end))),
        [Inserted 0x78]).
Proof.
  refine (proj1 (idle_frame_precedence tightRuntime _ iterSource hello_at_end true _)
                0x78 [0x79] _ 0%nat _ _ _).
  - reflexivity.
  - reflexivity.
  - reflexivity.
  - vm_compute. reflexivity.
Defined.

Lemma click_is_clamped_to_content_witness :
  doGoXY tightRuntime 2 10 scrollScene = doGoXY tightRuntime 5 10 scrollScene
  /\ doGoXY tightRuntime 200 10 scrollScene = Ok scrollScene
  /\ exists t',
       doGoXY tightRuntime 26 5 clickSceneMultibyte = Ok t'
       /\ InputText t' = InputText clickSceneMultibyte
       /\ scrollOffset t' = scrollOffset clickSceneMultibyte
       /\ (cursorPosition t' = cursorPosition clickSceneMultibyte
           \/ 0 <= cursorPosition t' <= len (InputText clickSceneMultibyte))
       /\ cursorPosition t' = 3.
Proof.
  destruct (click_is_clamped_to_content tightRuntime 2 10 scrollScene) as (_ & Hclamp & _);
    [vm_compute; discriminate|].
  destruct (click_is_clamped_to_content tightRuntime 200 10 scrollScene) as (Hout & _ & _);
    [vm_compute; discriminate|].
  destruct (click_is_clamped_to_content tightRuntime 26 5 clickSceneMultibyte)
    as (_ & _ & Hclick); [vm_compute; discriminate|].
  split; [apply Hclamp; reflexivity|].
  split; [apply Hout; reflexivity|].
  destruct (doGoXY tightRuntime 26 5 clickSceneMultibyte) as [t'| |] eqn:E.
  - exists t'. split; [reflexivity|].
    destruct (Hclick t' eq_refl) as (Ht & Hs & Hc).
    repeat (split; [assumption|]).
    assert (E' : cursorOf (doGoXY tightRuntime 26 5 clickSceneMultibyte) = Ok 3)
      by (vm_compute; reflexivity).
    rewrite E in E'. cbn [cursorOf bind] in E'. apply Ok_inj in E'. exact E'.
  - vm_compute in E. discriminate E.
  - vm_compute in E. discriminate E.
Defined.

Lemma scroll_settles_in_one_frame_witness :
  exists t1 t2,
    drawTextAndCaret scrollScene = Ok t1
    /\ drawTextAndCaret t1 = Ok t2
    /\ scrollOffset t2 = scrollOffset t1.
Proof.
  destruct (scroll_settles_in_one_frame scrollScene) as (t1 & t2 & H1 & H2 & H3 & _).
  - vm_compute. split; discriminate.
  - vm_compute. repeat split; discriminate.
  - exists t1, t2. repeat split; assumption.
Defined.

Lemma edits_keep_cursor_in_code_points_witness :
  cursor_in_code_points hello_backspaced.
Proof.
  refine (proj1 (proj2 (edits_keep_cursor_in_code_points tightRuntime hello_at_end
                          hello_backspaced 0 _ _)) _).
  - vm_compute. split; discriminate.
  - vm_compute. reflexivity.
  - vm_compute. reflexivity.
Defined.

Lemma Render_needs_three_state_calls_witness :
  Render_with tightRuntime (3 + 5) (holdBackspace 0) iterSource hello_at_end
  = Render tightRuntime (holdBackspace 0) iterSource hello_at_end
  /\ Render tightRuntime (holdBackspace 0) iterSource hello_at_end <> OutOfFuel.
Proof.
  apply (Render_needs_three_state_calls tightRuntime). vm_compute. discriminate.
Defined.

Lemma insertChar_decodes_rest_from_byte_offset_witness :
  exists s',
    insertChar tightRuntime e_acute 0x78 1 = Ok s'
    /\ UTF8.runes s'
       = firstn (Z.to_nat 1) (UTF8.runes e_acute)
         ++ [UTF8.sanitize 0x78]
         ++ UTF8.runes (skipn (Z.to_nat 1) e_acute)
    /\ UTF8.RuneCount e_acute + 1 <= UTF8.RuneCount s'
    /\ len e_acute + 1 <= len s'.
Proof.
  apply (insertChar_decodes_rest_from_byte_offset tightRuntime). vm_compute. split; discriminate.
Defined.

